(** * ts_status_stats: flattening of status documents and partitioned storage

    A shallow embedding of [src/ts_status_stats/collector.py] and
    [src/ts_status_stats/config.py].

    - Python values that [json.loads] / [yaml.safe_load] produce are the
      inductive [value]; a source [dict] keeps its iteration order (a list
      of pairs), the dict that [_flatten_dict] builds is a [gmap].
    - [datetime.now()] is an explicit argument, one for each call.
    - The files under [base_location] are a finite map from path strings to
      data frames; [pd.DataFrame], [pd.concat], [read_parquet] and
      [to_parquet] are modelled on rows and column names. *)

From Stdlib Require Import ZArith NArith Ascii String List Lia Bool.
From Stdlib Require Import Floats.SpecFloat.
From Stdlib Require Import DecimalString DecimalFacts DecimalPos DecimalN.
From stdpp Require Import base option list gmap strings fin_maps.

Set Warnings "-register-all".
Local Open Scope string_scope.

(** ** Python values *)

Inductive value : Type :=
  | VNone
  | VBool (b : bool)
  | VInt (z : Z)
  | VFloat (f : spec_float)
  | VStr (s : string)
  | VList (l : list value)
  | VDict (d : list (string * value)).

(** [isinstance(v, (dict, list))] *)
Definition is_container (v : value) : bool :=
  match v with
  | VDict _ | VList _ => true
  | _ => false
  end.

(** Truth value of a [str]: non-empty. *)
Definition str_truthy (s : string) : bool :=
  match s with
  | EmptyString => false
  | String _ _ => true
  end.

(** [str(n)] for a non-negative [int]: its decimal numeral. *)
Definition str_N (n : N) : string :=
  NilEmpty.string_of_uint (N.to_uint n).

Definition str_nat (i : nat) : string := str_N (N.of_nat i).

(** [repeat "0"] *)
Fixpoint zeros (k : nat) : string :=
  match k with
  | O => ""
  | S k' => String "0" (zeros k')
  end.

(** The format specification [0wd] on a non-negative [int]: the decimal
    numeral, padded on the left with zeros up to [w] characters. *)
Definition zero_pad (w : nat) (n : N) : string :=
  zeros (w - String.length (str_N n)) ++ str_N n.

(** ** Exceptions *)

Inductive exn : Type :=
  | ValueError (msg : string)
  | TypeError (msg : string)
  | KeyError (key : string)
  | FileNotFoundError (msg : string)
  | FormatError.

Inductive result (A : Type) : Type :=
  | Ok (a : A)
  | Raise (e : exn).
Arguments Ok {A} a.
Arguments Raise {A} e.

(** An exception raised in [r] leaves the rest of the function unrun. *)
#[global] Instance result_bind : MBind result := λ A B k r,
  match r with
  | Ok a => k a
  | Raise e => Raise e
  end.

#[global] Instance result_fmap : FMap result := λ A B f r,
  match r with
  | Ok a => Ok (f a)
  | Raise e => Raise e
  end.

(** ** datetime *)

Record datetime : Type := mkDatetime {
  year : N; month : N; day : N;
  hour : N; minute : N; second : N; microsecond : N }.

(** The ranges of the fields of a [datetime] object. *)
Definition valid_datetime (t : datetime) : Prop :=
  (1 <= year t <= 9999)%N /\ (1 <= month t <= 12)%N /\ (1 <= day t <= 31)%N /\
  (hour t < 24)%N /\ (minute t < 60)%N /\ (second t < 60)%N /\
  (microsecond t < 1000000)%N.

(** [datetime.isoformat()] of a naive datetime:
    [YYYY-MM-DDTHH:MM:SS], followed by [.ffffff] when the microsecond is
    not zero. *)
Definition isoformat (t : datetime) : string :=
  zero_pad 4 (year t) ++ "-" ++ zero_pad 2 (month t) ++ "-" ++
  zero_pad 2 (day t) ++ "T" ++ zero_pad 2 (hour t) ++ ":" ++
  zero_pad 2 (minute t) ++ ":" ++ zero_pad 2 (second t) ++
  (if (microsecond t =? 0)%N then "" else "." ++ zero_pad 6 (microsecond t)).

(** [strftime("%Y%m%d")]. The year is written with four digits; for years
    below 1000, which a running clock does not give, the C library decides
    whether [%Y] is padded. *)
Definition strftime_Ymd (t : datetime) : string :=
  zero_pad 4 (year t) ++ zero_pad 2 (month t) ++ zero_pad 2 (day t).

(** ** pathlib (POSIX flavour) *)

(** A path is its root ([""], ["/"] or ["//"]) and its components. *)
Record path : Type := mkPath { root : string; parts : list string }.

(** Splits at every ["/"]; [cur] is the component being read. *)
Fixpoint split_slash (s cur : string) : list string :=
  match s with
  | EmptyString => [cur]
  | String c rest =>
      if Ascii.eqb c "/" then cur :: split_slash rest ""
      else split_slash rest (cur ++ String c "")
  end.

(** Two leading slashes, and only two, are kept as the root ["//"]. *)
Definition root_of (s : string) : string :=
  match s with
  | String "/" (String "/" (String "/" _)) => "/"
  | String "/" (String "/" _) => "//"
  | String "/" _ => "/"
  | _ => ""
  end.

(** Empty components and ["."] are dropped when a path is parsed. *)
Definition keep_part (p : string) : bool :=
  negb (String.eqb p "" || String.eqb p ".").

(** [Path(s)] *)
Definition Path (s : string) : path :=
  {| root := root_of s; parts := List.filter keep_part (split_slash s "") |}.

(** [p / s]: a segment with a root replaces what comes before it. *)
Definition joinpath (p : path) (s : string) : path :=
  let q := Path s in
  if str_truthy (root q) then q
  else {| root := root p; parts := parts p ++ parts q |}.

Fixpoint join_slash (l : list string) : string :=
  match l with
  | [] => ""
  | [x] => x
  | x :: rest => x ++ "/" ++ join_slash rest
  end.

(** [str(p)] *)
Definition path_str (p : path) : string :=
  match root p, parts p with
  | EmptyString, [] => "."
  | r, l => r ++ join_slash l
  end.

(** The directories that [p.mkdir(parents=True, exist_ok=True)] makes sure
    exist: [p] and its ancestors below the root. *)
Fixpoint ancestors_from (r : string) (pre l : list string) : list string :=
  match l with
  | [] => []
  | x :: rest =>
      path_str {| root := r; parts := pre ++ [x] |}
        :: ancestors_from r (pre ++ [x]) rest
  end.

Definition mkdir_parents (p : path) (dirs : gset string) : gset string :=
  list_to_set (ancestors_from (root p) [] (parts p)) ∪ dirs.

(** ** pandas and the files *)

(** A data frame: its column names and its rows, oldest first. A row maps a
    column to its cell; a column the row has no entry for is null there.
    The order of the columns is not modelled. *)
Record DataFrame : Type := mkDataFrame {
  columns : gset string;
  rows : list (gmap string value) }.

(** [pd.DataFrame(records)] on a list of dicts. *)
Definition pd_DataFrame (records : list (gmap string value)) : DataFrame :=
  {| columns := ⋃ (dom <$> records); rows := records |}.

(** [pd.concat([a, b], ignore_index=True)] *)
Definition pd_concat (a b : DataFrame) : DataFrame :=
  {| columns := columns a ∪ columns b; rows := rows a ++ rows b |}.


(** The directories and the parquet files, by path string. [to_parquet]
    stores a frame and [read_parquet] gives it back; failing reads and
    writes are not modelled. *)
Record filesystem : Type := mkFilesystem {
  dirs : gset string;
  tables : gmap string DataFrame }.

(** ** collector.py *)

Module collector.

Record TailscaleCollector : Type := mkCollector {
  base_location : path;
  file_name_format : string }.

(** [f"{parent_key}{sep}{k}" if parent_key else k] (line 69). *)
Definition dict_key (parent_key sep k : string) : string :=
  if str_truthy parent_key then parent_key ++ sep ++ k else k.

(** [f"{parent_key}_{i}" if parent_key else str(i)] (line 77). *)
Definition list_key (parent_key : string) (i : nat) : string :=
  if str_truthy parent_key then parent_key ++ "_" ++ str_nat i else str_nat i.

(** [items.update(other)]: the entries of [other] win. *)
Definition update (items other : gmap string value) : gmap string value :=
  other ∪ items.

(** [TailscaleCollector._flatten_dict] (lines 51-85). The two inner loops
    are the [for] loops over [obj.items()] and [enumerate(obj)], threading
    the dict [items]. *)
Fixpoint flatten_dict (obj : value) (parent_key sep : string)
  : gmap string value :=
  match obj with
  | VDict d =>
      (fix loop (kvs : list (string * value)) (items : gmap string value) :=
         match kvs with
         | [] => items
         | (k, v) :: rest =>
             let new_key := dict_key parent_key sep k in
             loop rest
               (match v with
                | VDict _ | VList _ => update items (flatten_dict v new_key sep)
                | _ => <[new_key := v]> items
                end)
         end) d ∅
  | VList l =>
      (fix loop (i : nat) (elems : list value) (items : gmap string value) :=
         match elems with
         | [] => items
         | item :: rest =>
             let new_key := list_key parent_key i in
             loop (S i) rest
               (match item with
                | VDict _ | VList _ =>
                    update items (flatten_dict item new_key sep)
                | _ => <[new_key := item]> items
                end)
         end) 0%nat l ∅
  | _ => {[ parent_key := obj ]}
  end.

(** The default arguments [parent_key=""] and [sep="_"]. *)
Definition flatten (obj : value) : gmap string value :=
  flatten_dict obj "" "_".

(** *** The loops, one iteration at a time *)

(** The body shared by the two loops (lines 70-73 and 78-81): what one child
    [v] under the key [new_key] does to [items]. *)
Definition flatten_item (sep : string) (items : gmap string value)
    (child : string * value) : gmap string value :=
  if is_container child.2
  then update items (flatten_dict child.2 child.1 sep)
  else <[child.1 := child.2]> items.

Definition flatten_children (sep : string) (children : list (string * value))
    (items : gmap string value) : gmap string value :=
  foldl (flatten_item sep) items children.

(** The children of a mapping node with their keys, in iteration order. *)
Definition dict_children (parent_key sep : string)
    (d : list (string * value)) : list (string * value) :=
  (λ kv, (dict_key parent_key sep kv.1, kv.2)) <$> d.

(** The children of a sequence node with their keys; [i] is the index of
    the first element. *)
Fixpoint list_children (parent_key : string) (i : nat) (l : list value)
  : list (string * value) :=
  match l with
  | [] => []
  | item :: rest => (list_key parent_key i, item) :: list_children parent_key (S i) rest
  end.

(** *** Bounded recursion *)

(** The nesting depth of a document. *)
Fixpoint height (v : value) : nat :=
  match v with
  | VDict d => S (foldr (λ kv m, Nat.max (height kv.2) m) 0%nat d)
  | VList l => S (foldr (λ x m, Nat.max (height x) m) 0%nat l)
  | _ => 0%nat
  end.

Section bounded.
(** The recursive call, which may fail for want of stack. *)
Variable rec : value → string → string → option (gmap string value).
Variables parent_key sep : string.

Definition step_fuel (new_key : string) (v : value)
    (items : gmap string value) : option (gmap string value) :=
  match v with
  | VDict _ | VList _ => update items <$> rec v new_key sep
  | _ => Some (<[new_key := v]> items)
  end.

Fixpoint dict_loop_fuel (kvs : list (string * value))
    (items : gmap string value) : option (gmap string value) :=
  match kvs with
  | [] => Some items
  | (k, v) :: rest =>
      step_fuel (dict_key parent_key sep k) v items ≫= dict_loop_fuel rest
  end.

Fixpoint list_loop_fuel (i : nat) (elems : list value)
    (items : gmap string value) : option (gmap string value) :=
  match elems with
  | [] => Some items
  | item :: rest =>
      step_fuel (list_key parent_key i) item items ≫= list_loop_fuel (S i) rest
  end.
End bounded.

(** [_flatten_dict] run with room for [fuel] nested calls: [None] when the
    calls nest deeper than that. *)
Fixpoint flatten_fuel (fuel : nat) (obj : value) (parent_key sep : string)
  : option (gmap string value) :=
  match fuel with
  | O => None
  | S n =>
      match obj with
      | VDict d => dict_loop_fuel (flatten_fuel n) parent_key sep d ∅
      | VList l => list_loop_fuel (flatten_fuel n) parent_key sep 0%nat l ∅
      | _ => Some {[ parent_key := obj ]}
      end
  end.

(** *** Records and files *)

(** [TailscaleCollector._prepare_record] (lines 87-99); [now] is what
    [datetime.now()] returns at line 98. *)
Definition prepare_record (now : datetime) (status_data : value)
  : gmap string value :=
  let record := flatten status_data in
  <["_timestamp" := VStr (isoformat now)]> record.

(** [template.format(date=date)]. Text is copied, [{{] and [}}] stand for
    one brace, and the replacement field [{date}] is replaced by [date].
    [field] holds the text read since an opening brace. A lone closing
    brace, an unclosed field and a field that names another argument raise
    (ValueError, KeyError or IndexError). A field [date] that carries a
    conversion, a format specification, an attribute or an index is
    outside this model and is reported in the same way. *)
Fixpoint format_go (template : string) (field : option string)
    (date : string) : result string :=
  match template with
  | EmptyString =>
      match field with
      | None => Ok ""
      | Some _ => Raise FormatError
      end
  | String c rest =>
      match field with
      | None =>
          if Ascii.eqb c "{" then
            match rest with
            | String c' rest' =>
                if Ascii.eqb c' "{"
                then r ← format_go rest' None date; Ok (String "{" r)
                else format_go rest (Some "") date
            | EmptyString => Raise FormatError
            end
          else if Ascii.eqb c "}" then
            match rest with
            | String c' rest' =>
                if Ascii.eqb c' "}"
                then r ← format_go rest' None date; Ok (String "}" r)
                else Raise FormatError
            | EmptyString => Raise FormatError
            end
          else r ← format_go rest None date; Ok (String c r)
      | Some name =>
          if Ascii.eqb c "}" then
            if String.eqb name "date"
            then r ← format_go rest None date; Ok (date ++ r)
            else Raise FormatError
          else format_go rest (Some (name ++ String c "")) date
      end
  end.

Definition str_format (template date : string) : result string :=
  format_go template None date.

(** Lines 113-120: the directory of the month and the file of the day. *)
Definition year_month_path (self : TailscaleCollector) (now : datetime) : path :=
  joinpath (joinpath (base_location self) (str_N (year now)))
           (zero_pad 2 (month now)).

(** [TailscaleCollector.save_status] (lines 101-136). [now] is the clock
    read at line 113 and [stamp] the one read in [_prepare_record]. The
    directories are created before the file name is rendered, so they stay
    when rendering raises. *)
Definition save_status (self : TailscaleCollector) (now stamp : datetime)
    (status_data : value) (fs : filesystem) : result path * filesystem :=
  let ymp := year_month_path self now in
  let fs := {| dirs := mkdir_parents ymp (dirs fs); tables := tables fs |} in
  let date_str := strftime_Ymd now in
  match str_format (file_name_format self) date_str with
  | Raise e => (Raise e, fs)
  | Ok filename =>
      let file_path := joinpath ymp filename in
      let record := prepare_record stamp status_data in
      let df := pd_DataFrame [record] in
      let df :=
        match tables fs !! path_str file_path with
        | Some existing_df => pd_concat existing_df df
        | None => df
        end in
      (Ok file_path,
       {| dirs := dirs fs; tables := <[path_str file_path := df]> (tables fs) |})
  end.

(** *** The status command *)



Section collect.
(** [json.loads]: the document, or the text of the [JSONDecodeError]. *)
Variable json_loads : string → value + string.

End collect.

End collector.

(** ** config.py *)

Module config.

Record Config : Type := mkConfig {
  interval : value;
  base_location : path;
  file_name_format : value }.

(** [x <= 0] for a float: signed zeros are equal to 0, a NaN compares
    false with everything. *)
Definition float_le_zero (f : spec_float) : bool :=
  match f with
  | S754_zero _ => true
  | S754_infinity s => s
  | S754_nan => false
  | S754_finite s _ _ => s
  end.

(** [v <= 0]; [bool] is a subclass of [int], the other types do not
    compare with an [int]. *)
Definition le_zero (v : value) : result bool :=
  match v with
  | VInt z => Ok (z <=? 0)%Z
  | VBool b => Ok (negb b)
  | VFloat f => Ok (float_le_zero f)
  | _ => Raise (TypeError "'<=' not supported")
  end.

(** [Config(interval, base_location, file_name_format)]: the generated
    [__init__] followed by [__post_init__] (lines 17-24). *)
Definition Config_init (interval base_location file_name_format : value)
    (dirs : gset string) : result (Config * gset string) :=
  nonpositive ← le_zero interval;
  if (nonpositive : bool)
  then Raise (ValueError "interval must be greater than 0")
  else
    match base_location with
    | VStr s =>
        let p := Path s in
        Ok ({| interval := interval; base_location := p;
               file_name_format := file_name_format |},
            mkdir_parents p dirs)
    | _ => Raise (TypeError "expected str, bytes or os.PathLike object")
    end.

Definition default_file_name_format : string :=
  "tailscale-status-{date}.parquet".

Definition required_fields : list string := ["interval"; "base_location"].

(** [d.get(key)], and [d[key]] which raises when the key is absent. *)
Fixpoint dict_get (d : list (string * value)) (key : string) : option value :=
  match d with
  | [] => None
  | (k, v) :: rest => if String.eqb k key then Some v else dict_get rest key
  end.

Definition getitem (d : list (string * value)) (key : string) : result value :=
  match dict_get d key with
  | Some v => Ok v
  | None => Raise (KeyError key)
  end.

(** [key in d] for a dict. *)
Fixpoint dict_has (d : list (string * value)) (key : string) : bool :=
  match d with
  | [] => false
  | (k, _) :: rest => String.eqb k key || dict_has rest key
  end.

(** [field not in config_dict] (line 62) by the type of what
    [yaml.safe_load] returned: a key of a dict, an element of a list, a
    substring of a string; the other types are not containers. *)
Definition not_in (field : string) (config_dict : value) : result bool :=
  match config_dict with
  | VDict d => Ok (negb (dict_has d field))
  | VList l =>
      Ok (negb (existsb (λ x, match x with
                              | VStr s => String.eqb s field
                              | _ => false
                              end) l))
  | VStr s => Ok (negb (bool_decide (is_Some (index 0 field s))))
  | _ => Raise (TypeError "argument is not iterable")
  end.

(** The list comprehension of line 62. *)
Fixpoint missing_fields (fields : list string) (config_dict : value)
  : result (list string) :=
  match fields with
  | [] => Ok []
  | field :: rest =>
      absent ← not_in field config_dict;
      others ← missing_fields rest config_dict;
      Ok (if (absent : bool) then field :: others else others)
  end.

Definition missing_message (missing : list string) : string :=
  "Configuration is missing required fields: " ++ String.concat ", " missing.

(** Lines 43-46: the argument when it is given (and truthy), else
    [~/.config/ts-status.yml]; [home] is [Path.home()]. *)
Definition resolve_path (home : path) (config_path : option string) : path :=
  let home_config := joinpath (joinpath home ".config") "ts-status.yml" in
  match config_path with
  | Some s => if str_truthy s then Path s else home_config
  | None => home_config
  end.

(** [load_config] (lines 27-80). [documents] gives what [yaml.safe_load]
    returns for the files that exist, [None] is the absent argument. *)
Definition load_config (home : path) (documents : gmap string value)
    (dirs : gset string) (config_path : option string)
  : result (Config * gset string) :=
  let config_path := resolve_path home config_path in
  match documents !! path_str config_path with
  | None =>
      Raise (FileNotFoundError
        ("Configuration file not found at " ++ path_str config_path ++ ". " ++
         "Please create it with 'interval', 'base_location', and optionally 'file_name_format'."))
  | Some VNone => Raise (ValueError "Configuration file is empty")
  | Some config_dict =>
      missing ← missing_fields required_fields config_dict;
      match missing with
      | _ :: _ => Raise (ValueError (missing_message missing))
      | [] =>
          match config_dict with
          | VDict d =>
              interval ← getitem d "interval";
              base_location ← getitem d "base_location";
              Config_init interval base_location
                (default (VStr default_file_name_format)
                         (dict_get d "file_name_format"))
                dirs
          | _ => Raise (TypeError "indices must be integers")
          end
      end
  end.

End config.

(** ** main.py *)

Module main.
Import collector.



Section loop.
Variable json_loads : string → value + string.
Variable self : TailscaleCollector.


End loop.

End main.

(** ** The shape of a timestamp *)

Definition is_digit (c : ascii) : bool :=
  (48 <=? nat_of_ascii c)%nat && (nat_of_ascii c <=? 57)%nat.

(** [matches pat s]: [s] has the length of [pat], a digit where [pat] has
    the letter d and the character of [pat] elsewhere. *)
Fixpoint matches (pat s : string) : bool :=
  match pat, s with
  | EmptyString, EmptyString => true
  | String p pat', String c s' =>
      (if Ascii.eqb p "d" then is_digit c else Ascii.eqb p c) && matches pat' s'
  | _, _ => false
  end.

(** An ISO-8601 date and time to the second, or to the microsecond. *)
Definition is_iso8601 (s : string) : bool :=
  matches "dddd-dd-ddTdd:dd:dd" s || matches "dddd-dd-ddTdd:dd:dd.dddddd" s.

(** [c in s] for a character. *)
Fixpoint has_char (c : ascii) (s : string) : bool :=
  match s with
  | EmptyString => false
  | String c' s' => Ascii.eqb c c' || has_char c s'
  end.

(** [s.isdigit()], the empty string included. *)
Fixpoint all_digits (s : string) : bool :=
  match s with
  | EmptyString => true
  | String c s' => is_digit c && all_digits s'
  end.

(** The pattern of [k] digits. *)
Fixpoint digits_pattern (k : nat) : string :=
  match k with
  | O => ""
  | S k' => String "d" (digits_pattern k')
  end.

(** The part of a child key of a sequence that comes before the index. *)
Definition list_prefix (parent_key : string) : string :=
  if str_truthy parent_key then parent_key ++ "_" else "".

(** What may follow a child key in a flattened key: nothing, or the default
    separator and more. *)
Definition is_tail (t : string) : Prop := t = "" ∨ ∃ r, t = "_" ++ r.

(** A single path component: no slash, not empty and not [.]. *)
Definition is_component (s : string) : bool :=
  negb (has_char "/" s) && keep_part s.

(** Text without braces. *)
Definition brace_free (s : string) : bool :=
  negb (has_char "{" s) && negb (has_char "}" s).


(** [v == {}] or [v == []]. *)
Definition is_empty_container (v : value) : bool :=
  match v with
  | VDict [] | VList [] => true
  | _ => false
  end.

(** ** Measures of a document *)

(** The number of scalar leaves of a document. *)
Fixpoint leaf_count (v : value) : nat :=
  match v with
  | VDict d => foldr (λ kv n, leaf_count kv.2 + n)%nat 0%nat d
  | VList l => foldr (λ x n, leaf_count x + n)%nat 0%nat l
  | _ => 1%nat
  end.

(** A key that is not empty and has no underscore. *)
Definition key_ok (k : string) : bool :=
  str_truthy k && negb (has_char "_" k).

(** Every dict of the document has such keys, each of them once. *)
Fixpoint keys_clean (v : value) : bool :=
  match v with
  | VDict d =>
      forallb key_ok d.*1 && bool_decide (NoDup d.*1)
      && forallb (λ kv, keys_clean kv.2) d
  | VList l => forallb keys_clean l
  | _ => true
  end.

(** The maps of a list have no key in common, two by two. *)
Fixpoint all_disjoint (ws : list (gmap string value)) : Prop :=
  match ws with
  | [] => True
  | w :: rest => Forall (λ w', w ##ₘ w') rest ∧ all_disjoint rest
  end.

(** A document of lists and scalars, with no dict in it. *)
Fixpoint no_dict (v : value) : bool :=
  match v with
  | VDict _ => false
  | VList l => forallb no_dict l
  | _ => true
  end.

(** ** Files and days *)


(** Two instants of the same day. *)
Definition same_day (t1 t2 : datetime) : Prop :=
  year t1 = year t2 ∧ month t1 = month t2 ∧ day t1 = day t2.

(** * Properties *)

(** ** Strings *)

Section strings.
Implicit Types s t u : string.

Lemma str_app_cons c s t : String c s ++ t = String c (s ++ t).
Proof. reflexivity. Qed.

Lemma str_app_nil_l s : "" ++ s = s.
Proof. reflexivity. Qed.

Lemma str_app_nil_r s : s ++ "" = s.
Proof. induction s as [|c s IH]; [done|]. by rewrite str_app_cons, IH. Qed.

Lemma str_app_assoc s t u : (s ++ t) ++ u = s ++ (t ++ u).
Proof. induction s as [|c s IH]; [done|]. by rewrite !str_app_cons, IH. Qed.

Lemma str_app_inv_head s t u : s ++ t = s ++ u → t = u.
Proof.
  induction s as [|c s IH]; [done|].
  rewrite !str_app_cons. intros [= H]. auto.
Qed.

Lemma str_length_app s t :
  String.length (s ++ t) = (String.length s + String.length t)%nat.
Proof. induction s as [|c s IH]; [done|]. rewrite str_app_cons. simpl. by rewrite IH. Qed.

Lemma has_char_app c s t : has_char c (s ++ t) = has_char c s || has_char c t.
Proof.
  induction s as [|c' s IH]; [done|].
  rewrite str_app_cons. simpl. rewrite IH. by rewrite orb_assoc.
Qed.

Lemma str_truthy_app_r s t : str_truthy t = true → str_truthy (s ++ t) = true.
Proof. destruct s; [done|]. by rewrite str_app_cons. Qed.
End strings.

(** ** The loops of [_flatten_dict] *)

Section flatten_loops.
Import collector.
Implicit Types items : gmap string value.

Lemma flatten_item_scalar sep items K v :
  is_container v = false → flatten_item sep items (K, v) = <[K := v]> items.
Proof. intros Hv. unfold flatten_item. simpl. by rewrite Hv. Qed.

Lemma flatten_item_container sep items K v :
  is_container v = true →
  flatten_item sep items (K, v) = flatten_dict v K sep ∪ items.
Proof. intros Hv. unfold flatten_item. simpl. by rewrite Hv. Qed.

(** What a child adds does not depend on what is already there. *)
Lemma flatten_item_union sep items child :
  flatten_item sep items child = flatten_item sep ∅ child ∪ items.
Proof.
  destruct child as [K v]. destruct (is_container v) eqn:Hv.
  - rewrite !flatten_item_container by done.
    by rewrite (right_id_L ∅ (∪)).
  - rewrite !flatten_item_scalar by done.
    by rewrite insert_union_singleton_l, insert_empty.
Qed.

Lemma flatten_dict_VDict d parent_key sep :
  flatten_dict (VDict d) parent_key sep
  = flatten_children sep (dict_children parent_key sep d) ∅.
Proof.
  unfold flatten_children, dict_children. simpl.
  generalize (∅ : gmap string value).
  induction d as [|[k v] d IH]; intros items; [done|].
  rewrite fmap_cons. simpl. rewrite IH. f_equal.
  by destruct v.
Qed.

Lemma list_loop_children parent_key sep i l items :
  (fix loop (i : nat) (elems : list value) (items : gmap string value) :=
     match elems with
     | [] => items
     | item :: rest =>
         let new_key := list_key parent_key i in
         loop (S i) rest
           (match item with
            | VDict _ | VList _ =>
                update items (flatten_dict item new_key sep)
            | _ => <[new_key := item]> items
            end)
     end) i l items
  = flatten_children sep (list_children parent_key i l) items.
Proof.
  revert i items. induction l as [|v l IH]; intros i items; [done|].
  simpl. rewrite IH. unfold flatten_children. simpl. f_equal.
  by destruct v.
Qed.

Lemma flatten_dict_VList l parent_key sep :
  flatten_dict (VList l) parent_key sep
  = flatten_children sep (list_children parent_key 0 l) ∅.
Proof. apply list_loop_children. Qed.

Lemma flatten_children_app sep l1 l2 items :
  flatten_children sep (l1 ++ l2) items
  = flatten_children sep l2 (flatten_children sep l1 items).
Proof. apply foldl_app. Qed.

Lemma flatten_children_cons sep child l items :
  flatten_children sep (child :: l) items
  = flatten_children sep l (flatten_item sep items child).
Proof. reflexivity. Qed.

(** A key that no child writes keeps its entry. *)
Lemma flatten_children_untouched sep l items key :
  Forall (λ child, flatten_item sep ∅ child !! key = None) l →
  flatten_children sep l items !! key = items !! key.
Proof.
  intros H. revert items.
  induction H as [|child l Hc _ IH]; intros items; [done|].
  rewrite flatten_children_cons, IH.
  rewrite flatten_item_union, lookup_union_r; done.
Qed.

(** The last child that writes a key decides its value. *)
Lemma flatten_children_last_writer sep l1 child l2 items key x :
  flatten_item sep ∅ child !! key = Some x →
  Forall (λ child', flatten_item sep ∅ child' !! key = None) l2 →
  flatten_children sep (l1 ++ child :: l2) items !! key = Some x.
Proof.
  intros Hc Hl2.
  rewrite flatten_children_app, flatten_children_cons.
  rewrite flatten_children_untouched by done.
  rewrite flatten_item_union. by apply lookup_union_Some_l.
Qed.
End flatten_loops.

(** ** Collisions *)

Section collisions.
Import collector.

(** C1. Flattening [{"a": {"b": {"c": 1}}, "a_b": 2}] with the default
    separator gives exactly [a_b_c -> 1] and [a_b -> 2]. In every mapping
    node the value a child writes under a key is the value of that key in
    the result when no child visited later writes the same key: the later
    write replaces the earlier one. *)
Theorem flatten_later_write_wins :
  flatten (VDict [("a", VDict [("b", VDict [("c", VInt 1)])]); ("a_b", VInt 2)])
  = {[ "a_b_c" := VInt 1; "a_b" := VInt 2 ]}
  ∧ ∀ parent_key sep d1 k v d2 key x,
      flatten_item sep ∅ (dict_key parent_key sep k, v) !! key = Some x →
      Forall (λ kv, flatten_item sep ∅ (dict_key parent_key sep kv.1, kv.2)
                      !! key = None) d2 →
      flatten_dict (VDict (d1 ++ (k, v) :: d2)) parent_key sep !! key = Some x.
Proof.
  split; [by vm_compute|].
  intros parent_key sep d1 k v d2 key x Hw Hlater.
  rewrite flatten_dict_VDict. unfold dict_children.
  rewrite fmap_app, fmap_cons.
  apply flatten_children_last_writer; [done|].
  by apply Forall_fmap.
Qed.

(** The nested [a -> b] and the literal [a_b] meet on the key [a_b]: the
    one that is visited later is kept. *)
Lemma flatten_later_write_wins_witness :
  flatten_dict (VDict [("a", VDict [("b", VInt 1)]); ("a_b", VInt 2)]) "" "_"
    !! "a_b" = Some (VInt 2)
  ∧ flatten_dict (VDict [("a_b", VInt 2); ("a", VDict [("b", VInt 1)])]) "" "_"
    !! "a_b" = Some (VInt 1).
Proof.
  split.
  - apply (proj2 flatten_later_write_wins "" "_"
             [("a", VDict [("b", VInt 1)])] "a_b" (VInt 2) [] "a_b" (VInt 2)).
    + reflexivity.
    + constructor.
  - apply (proj2 flatten_later_write_wins "" "_"
             [("a_b", VInt 2)] "a" (VDict [("b", VInt 1)]) [] "a_b" (VInt 1)).
    + reflexivity.
    + constructor.
Defined.
End collisions.

(** ** Scalars and empty containers *)

Section leaves.
Import collector.

(** C9. [_flatten_dict] called on a value that is neither a dict nor a
    list returns the one-entry dict [{parent_key: v}], whatever the prefix,
    the empty one included. *)
Theorem flatten_scalar v parent_key sep :
  is_container v = false →
  flatten_dict v parent_key sep = {[ parent_key := v ]}.
Proof. by destruct v. Qed.

Lemma flatten_scalar_witness :
  flatten_dict (VInt 7) "" "_" = {[ "" := VInt 7 ]}
  ∧ flatten_dict (VStr "x") "p" "_" = {[ "p" := VStr "x" ]}.
Proof.
  split.
  - apply (flatten_scalar (VInt 7) "" "_"). reflexivity.
  - apply (flatten_scalar (VStr "x") "p" "_"). reflexivity.
Defined.

Lemma list_children_cons parent_key i v l :
  list_children parent_key i (v :: l)
  = (list_key parent_key i, v) :: list_children parent_key (S i) l.
Proof. reflexivity. Qed.

Lemma list_children_app parent_key i l1 l2 :
  list_children parent_key i (l1 ++ l2)
  = (list_children parent_key i l1
     ++ list_children parent_key (i + length l1) l2)%list.
Proof.
  revert i. induction l1 as [|v l1 IH]; intros i; simpl.
  - by rewrite Nat.add_0_r.
  - rewrite IH. do 3 f_equal. lia.
Qed.

Lemma is_empty_container_flatten e parent_key sep :
  is_empty_container e = true → flatten_dict e parent_key sep = ∅.
Proof. by destruct e as [| | | | |[]|[]]. Qed.

Lemma is_empty_container_item e sep items K :
  is_empty_container e = true → flatten_item sep items (K, e) = items.
Proof.
  intros He. rewrite flatten_item_container by (by destruct e as [| | | | |[]|[]]).
  rewrite is_empty_container_flatten by done. by rewrite (left_id_L ∅ (∪)).
Qed.

(** C10. An empty dict or list flattens to the empty dict, and as a child
    of a mapping or of a sequence it adds no key: the result is that of
    the other children alone, the elements of a sequence keeping their
    own indices. *)
Theorem empty_container_vanishes e parent_key sep :
  is_empty_container e = true →
  flatten_dict e parent_key sep = ∅
  ∧ (∀ d1 k d2,
       flatten_dict (VDict (d1 ++ (k, e) :: d2)) parent_key sep
       = flatten_dict (VDict (d1 ++ d2)) parent_key sep)
  ∧ (∀ l1 l2,
       flatten_dict (VList (l1 ++ e :: l2)) parent_key sep
       = flatten_children sep
           (list_children parent_key 0 l1
            ++ list_children parent_key (S (length l1)) l2)%list ∅).
Proof.
  intros He. split; [by apply is_empty_container_flatten|]. split.
  - intros d1 k d2. rewrite !flatten_dict_VDict. unfold dict_children.
    rewrite !fmap_app, fmap_cons, !flatten_children_app.
    rewrite flatten_children_cons. simpl.
    by rewrite is_empty_container_item.
  - intros l1 l2. rewrite flatten_dict_VList, list_children_app.
    rewrite Nat.add_0_l, list_children_cons, !flatten_children_app.
    by rewrite flatten_children_cons, is_empty_container_item.
Qed.

Lemma empty_container_vanishes_witness :
  flatten (VDict []) = ∅
  ∧ flatten (VList []) = ∅
  ∧ flatten (VDict [("a", VDict [])]) = ∅
  ∧ flatten (VDict [("a", VList []); ("b", VInt 1)]) = {[ "b" := VInt 1 ]}.
Proof.
  split; [|split; [|split]].
  - apply (empty_container_vanishes (VDict []) "" "_"). reflexivity.
  - apply (empty_container_vanishes (VList []) "" "_"). reflexivity.
  - pose proof (empty_container_vanishes (VDict []) "" "_" eq_refl) as (_ & H & _).
    exact (H [] "a" []).
  - pose proof (empty_container_vanishes (VList []) "" "_" eq_refl) as (_ & H & _).
    exact (H [] "a" [("b", VInt 1)]).
Defined.
End leaves.

(** ** Termination *)

Section termination.
Import collector.
Implicit Types items : gmap string value.

Lemma height_children_dict d n :
  height (VDict d) < S n → Forall (λ kv, height kv.2 < n) d.
Proof.
  simpl. intros H. apply Nat.succ_lt_mono in H.
  induction d as [|[k v] d IH]; constructor; simpl in *; [lia|].
  apply IH. lia.
Qed.

Lemma height_children_list l n :
  height (VList l) < S n → Forall (λ v, height v < n) l.
Proof.
  simpl. intros H. apply Nat.succ_lt_mono in H.
  induction l as [|v l IH]; constructor; simpl in *; [lia|].
  apply IH. lia.
Qed.

Section loops.
Variable rec : value → string → string → option (gmap string value).
Variable sep : string.

(** One iteration with a recursive call that answers as
    [_flatten_dict] does. *)
Lemma step_fuel_enough K v items :
  (is_container v = true → rec v K sep = Some (flatten_dict v K sep)) →
  step_fuel rec sep K v items = Some (flatten_item sep items (K, v)).
Proof.
  intros Hrec. destruct v; try done.
  - simpl. by rewrite Hrec.
  - simpl. by rewrite Hrec.
Qed.

(** One iteration that returns: the recursive call, if any, returned. *)
Lemma step_fuel_sound K v items r :
  (∀ r', rec v K sep = Some r' → r' = flatten_dict v K sep) →
  step_fuel rec sep K v items = Some r →
  r = flatten_item sep items (K, v).
Proof.
  intros Hrec. destruct v; simpl; try (by intros [= <-]).
  - destruct (rec _ _ _) as [r'|]; simpl; [|done].
    intros [= <-]. by rewrite (Hrec r').
  - destruct (rec _ _ _) as [r'|]; simpl; [|done].
    intros [= <-]. by rewrite (Hrec r').
Qed.
End loops.

Lemma flatten_fuel_enough fuel : ∀ obj parent_key sep,
  height obj < fuel →
  flatten_fuel fuel obj parent_key sep = Some (flatten_dict obj parent_key sep).
Proof.
  induction fuel as [|n IH]; intros obj parent_key sep Hh; [lia|].
  destruct obj as [| | | | |l|d]; try done.
  - apply height_children_list in Hh.
    rewrite flatten_dict_VList. simpl.
    generalize (∅ : gmap string value) 0%nat.
    induction Hh as [|v l Hv _ IHl]; intros items i; [done|].
    simpl. rewrite (step_fuel_enough _ _ _ _ _ (λ _, IH v _ sep Hv)).
    simpl. by rewrite IHl.
  - apply height_children_dict in Hh.
    rewrite flatten_dict_VDict. simpl.
    generalize (∅ : gmap string value).
    induction Hh as [|[k v] d Hv _ IHd]; intros items; [done|].
    simpl. rewrite (step_fuel_enough _ _ _ _ _ (λ _, IH v _ sep Hv)).
    simpl. by rewrite IHd.
Qed.

(** A bounded run that returns gives the result of [_flatten_dict]. *)
Lemma flatten_fuel_sound fuel : ∀ obj parent_key sep r,
  flatten_fuel fuel obj parent_key sep = Some r →
  r = flatten_dict obj parent_key sep.
Proof.
  induction fuel as [|n IH]; intros obj parent_key sep r; [done|].
  destruct obj as [| | | | |l|d]; try (by intros [= <-]).
  - rewrite flatten_dict_VList. simpl.
    generalize (∅ : gmap string value) 0%nat. revert r.
    induction l as [|v l IHl]; intros r items i; [by intros [= <-]|].
    simpl. destruct (step_fuel _ _ _ _ _) as [items'|] eqn:Hstep; [|done].
    apply step_fuel_sound in Hstep as ->; [|intros r'; apply IH].
    simpl. apply IHl.
  - rewrite flatten_dict_VDict. simpl.
    generalize (∅ : gmap string value). revert r.
    induction d as [|[k v] d IHd]; intros r items; [by intros [= <-]|].
    simpl. destruct (step_fuel _ _ _ _ _) as [items'|] eqn:Hstep; [|done].
    apply step_fuel_sound in Hstep as ->; [|intros r'; apply IH].
    simpl. apply IHd.
Qed.

(** C6. [_flatten_dict] is a total function on finite trees of dicts,
    lists and scalars: it is defined by structural recursion, and run
    with room for more nested calls than the tree is deep it returns,
    with that result, for every prefix and separator. No branch raises. *)
Theorem flatten_terminates obj parent_key sep fuel :
  height obj < fuel →
  flatten_fuel fuel obj parent_key sep
  = Some (flatten_dict obj parent_key sep).
Proof. apply flatten_fuel_enough. Qed.

Lemma flatten_terminates_witness :
  flatten_fuel 4
    (VDict [("Self", VDict [("ID", VInt 1); ("Tags", VList [VStr "a"])]);
            ("Version", VStr "1.54.0")]) "" "_"
  = Some (flatten
    (VDict [("Self", VDict [("ID", VInt 1); ("Tags", VList [VStr "a"])]);
            ("Version", VStr "1.54.0")])).
Proof.
  apply (flatten_terminates
    (VDict [("Self", VDict [("ID", VInt 1); ("Tags", VList [VStr "a"])]);
            ("Version", VStr "1.54.0")]) "" "_" 4).
  simpl. lia.
Defined.
End termination.

(** ** Decimal numerals *)

Section numerals.
Local Open Scope N_scope.

Lemma string_of_uint_digits d : all_digits (NilEmpty.string_of_uint d) = true.
Proof. induction d; simpl; auto. Qed.

Lemma string_of_uint_length d :
  String.length (NilEmpty.string_of_uint d) = Decimal.nb_digits d.
Proof. induction d; simpl; auto. Qed.

Lemma string_of_uint_inj d d' :
  NilEmpty.string_of_uint d = NilEmpty.string_of_uint d' → d = d'.
Proof.
  intros H. apply (f_equal NilEmpty.uint_of_string) in H.
  rewrite !NilEmpty.usu in H. congruence.
Qed.

Lemma str_N_digits n : all_digits (str_N n) = true.
Proof. apply string_of_uint_digits. Qed.

Lemma str_N_inj n m : str_N n = str_N m → n = m.
Proof.
  intros H. by apply DecimalN.Unsigned.to_uint_inj, string_of_uint_inj.
Qed.

Lemma str_nat_inj i j : str_nat i = str_nat j → i = j.
Proof. intros H. by apply Nat2N.inj, str_N_inj. Qed.

Lemma str_N_nonempty n : str_truthy (str_N n) = true.
Proof.
  unfold str_N. destruct n as [|p]; [done|]. simpl.
  pose proof (DecimalPos.Unsigned.to_uint_nonnil p) as H.
  by destruct (Pos.to_uint p).
Qed.

(** Reading digits after [acc] multiplies it by ten for each of them, at
    least. *)
Lemma of_uint_acc_lower d : ∀ acc,
  Npos acc * 10 ^ N.of_nat (Decimal.nb_digits d) ≤ Npos (Pos.of_uint_acc d acc).
Proof.
  induction d; intros acc; simpl Decimal.nb_digits;
    [simpl; lia| rewrite Nat2N.inj_succ, N.pow_succ_r'; simpl Pos.of_uint_acc;
                 (etrans; [|apply IHd]); nia ..].
Qed.

Lemma of_uint_lower d :
  d ≠ Decimal.Nil → Decimal.unorm d = d → d ≠ Decimal.zero →
  10 ^ N.of_nat (Nat.pred (Decimal.nb_digits d)) ≤ Pos.of_uint d.
Proof.
  intros Hnil Hnorm Hzero.
  destruct d; try done; simpl Decimal.nb_digits; simpl Nat.pred;
    try (simpl Pos.of_uint; (etrans; [|apply of_uint_acc_lower]); nia).
  exfalso. unfold Decimal.unorm in Hnorm. simpl in Hnorm.
  destruct (Decimal.nzhead d) as [|u|u|u|u|u|u|u|u|u|u] eqn:Hd;
    try discriminate Hnorm.
  - injection Hnorm as <-. by apply Hzero.
  - by apply (DecimalFacts.nzhead_nonzero d u).
Qed.

Lemma of_uint_acc_upper d : ∀ acc,
  Npos (Pos.of_uint_acc d acc)
  < (Npos acc + 1) * 10 ^ N.of_nat (Decimal.nb_digits d).
Proof.
  induction d; intros acc; simpl Decimal.nb_digits;
    [simpl; lia| rewrite Nat2N.inj_succ, N.pow_succ_r'; simpl Pos.of_uint_acc;
                 (eapply N.lt_le_trans; [apply IHd|]); nia ..].
Qed.

Lemma of_uint_upper d : Pos.of_uint d < 10 ^ N.of_nat (Decimal.nb_digits d).
Proof.
  induction d; simpl Decimal.nb_digits;
    [simpl; lia| rewrite Nat2N.inj_succ, N.pow_succ_r'; simpl Pos.of_uint ..];
    [nia| (eapply N.lt_le_trans; [apply of_uint_acc_upper|]); nia ..].
Qed.

Lemma to_uint_norm n : Decimal.unorm (N.to_uint n) = N.to_uint n.
Proof.
  rewrite <- (DecimalN.Unsigned.of_to n) at 2.
  by rewrite DecimalN.Unsigned.to_of.
Qed.

(** A number below [10^w] has at most [w] digits. *)
Lemma str_N_length n (w : nat) :
  (1 ≤ w)%nat → n < 10 ^ N.of_nat w → (String.length (str_N n) ≤ w)%nat.
Proof.
  intros Hw Hn. unfold str_N. rewrite string_of_uint_length.
  destruct n as [|p]; [simpl; lia|].
  pose proof (of_uint_lower (N.to_uint (Npos p))) as H.
  rewrite to_uint_norm in H. simpl N.to_uint in *.
  rewrite DecimalPos.Unsigned.of_to in H.
  specialize (H (DecimalPos.Unsigned.to_uint_nonnil p) eq_refl
                (DecimalPos.Unsigned.to_uint_nonzero p)).
  destruct (le_lt_dec (Decimal.nb_digits (Pos.to_uint p)) w) as [|Hgt]; [done|].
  exfalso.
  assert (10 ^ N.of_nat w ≤ 10 ^ N.of_nat (Nat.pred (Decimal.nb_digits (Pos.to_uint p))))
    by (apply N.pow_le_mono_r; lia).
  lia.
Qed.

(** A number from [10^w] on has more than [w] digits. *)
Lemma str_N_length_lower n (w : nat) :
  10 ^ N.of_nat w ≤ n → (w < String.length (str_N n))%nat.
Proof.
  intros Hn. unfold str_N. rewrite string_of_uint_length.
  pose proof (of_uint_upper (N.to_uint n)) as H.
  fold (N.of_uint (N.to_uint n)) in H.
  rewrite DecimalN.Unsigned.of_to in H.
  destruct (le_lt_dec (Decimal.nb_digits (N.to_uint n)) w) as [Hle|]; [|done].
  exfalso.
  assert (10 ^ N.of_nat (Decimal.nb_digits (N.to_uint n)) ≤ 10 ^ N.of_nat w)
    by (apply N.pow_le_mono_r; lia).
  lia.
Qed.

Lemma zeros_digits k : all_digits (zeros k) = true.
Proof. induction k; simpl; auto. Qed.

Lemma zeros_length k : String.length (zeros k) = k.
Proof. induction k; simpl; auto. Qed.

Lemma all_digits_app s t :
  all_digits (s ++ t) = all_digits s && all_digits t.
Proof.
  induction s as [|c s IH]; [done|].
  rewrite str_app_cons. simpl. by rewrite IH, andb_assoc.
Qed.

Lemma zero_pad_digits w n : all_digits (zero_pad w n) = true.
Proof.
  unfold zero_pad. by rewrite all_digits_app, zeros_digits, str_N_digits.
Qed.

Lemma zero_pad_length n (w : nat) :
  (1 ≤ w)%nat → n < 10 ^ N.of_nat w → String.length (zero_pad w n) = w.
Proof.
  intros Hw Hn. pose proof (str_N_length n w Hw Hn).
  unfold zero_pad. rewrite str_length_app, zeros_length. lia.
Qed.

(** At least four digits need no padding. *)
Lemma zero_pad_wide n (w : nat) :
  (w ≤ String.length (str_N n))%nat → zero_pad w n = str_N n.
Proof.
  intros H. unfold zero_pad.
  by replace (w - String.length (str_N n))%nat with 0%nat by lia.
Qed.

Lemma all_digits_has_char c s :
  is_digit c = false → all_digits s = true → has_char c s = false.
Proof.
  intros Hc. induction s as [|c' s IH]; [done|]. simpl.
  intros [Hd Hs]%andb_true_iff. rewrite IH by done.
  destruct (Ascii.eqb_spec c c') as [->|]; [congruence|done].
Qed.
End numerals.

(** ** Timestamps *)

Section timestamps.
Import collector.

Lemma matches_app p1 s1 p2 s2 :
  matches p1 s1 = true → matches p2 s2 = true →
  matches (p1 ++ p2) (s1 ++ s2) = true.
Proof.
  revert s1. induction p1 as [|p p1 IH]; intros [|c s1]; try done.
  rewrite !str_app_cons. simpl.
  intros [Hc H1]%andb_true_iff H2. rewrite Hc. simpl. by apply IH.
Qed.

Lemma matches_all_digits s :
  all_digits s = true → matches (digits_pattern (String.length s)) s = true.
Proof.
  induction s as [|c s IH]; [done|]. simpl.
  intros [Hc Hs]%andb_true_iff. rewrite Hc. simpl. by apply IH.
Qed.

Lemma matches_zero_pad (w : nat) n :
  (1 ≤ w)%nat → (n < 10 ^ N.of_nat w)%N →
  matches (digits_pattern w) (zero_pad w n) = true.
Proof.
  intros Hw Hn. rewrite <- (zero_pad_length n w Hw Hn) at 1.
  apply matches_all_digits, zero_pad_digits.
Qed.

Ltac field_matches :=
  first [ reflexivity
        | apply matches_zero_pad; [lia | simpl; lia] ].

Lemma isoformat_is_iso8601 now :
  valid_datetime now → is_iso8601 (isoformat now) = true.
Proof.
  intros (Hy & Hm & Hd & Hh & Hmi & Hs & Hus).
  unfold is_iso8601, isoformat. apply orb_true_iff.
  destruct (microsecond now =? 0)%N.
  - left.
    change "dddd-dd-ddTdd:dd:dd"
      with (digits_pattern 4 ++ "-" ++ digits_pattern 2 ++ "-" ++
            digits_pattern 2 ++ "T" ++ digits_pattern 2 ++ ":" ++
            digits_pattern 2 ++ ":" ++ digits_pattern 2 ++ "").
    repeat (apply matches_app; [field_matches|]). reflexivity.
  - right.
    change "dddd-dd-ddTdd:dd:dd.dddddd"
      with (digits_pattern 4 ++ "-" ++ digits_pattern 2 ++ "-" ++
            digits_pattern 2 ++ "T" ++ digits_pattern 2 ++ ":" ++
            digits_pattern 2 ++ ":" ++ digits_pattern 2 ++ "." ++
            digits_pattern 6).
    repeat (apply matches_app; [field_matches|]). field_matches.
Qed.

(** C3. The prepared record holds under [_timestamp] the capture time in
    ISO-8601, to the second or to the microsecond. The key is written
    after the flattening, so it replaces an entry that the document
    flattens to [_timestamp]; the other keys are those of the flattened
    document with their values. *)
Theorem prepare_record_timestamp now status_data :
  valid_datetime now →
  prepare_record now status_data !! "_timestamp" = Some (VStr (isoformat now))
  ∧ is_iso8601 (isoformat now) = true
  ∧ dom (prepare_record now status_data)
    = {["_timestamp"]} ∪ dom (flatten status_data)
  ∧ (∀ key, key ≠ "_timestamp" →
       prepare_record now status_data !! key = flatten status_data !! key).
Proof.
  intros Hnow. unfold prepare_record. repeat split.
  - apply lookup_insert_eq.
  - by apply isoformat_is_iso8601.
  - apply dom_insert_L.
  - intros key Hkey. by apply lookup_insert_ne.
Qed.

Lemma prepare_record_timestamp_witness :
  prepare_record (mkDatetime 2025 3 14 9 5 7 123)
    (VDict [("_timestamp", VStr "stale"); ("Version", VStr "1.54.0")])
    !! "_timestamp" = Some (VStr "2025-03-14T09:05:07.000123")
  ∧ prepare_record (mkDatetime 2025 3 14 9 5 7 0)
    (VDict [("x", VList [VDict [("_timestamp", VInt 0)]])])
    !! "_timestamp" = Some (VStr "2025-03-14T09:05:07").
Proof.
  split.
  - apply (prepare_record_timestamp (mkDatetime 2025 3 14 9 5 7 123)
      (VDict [("_timestamp", VStr "stale"); ("Version", VStr "1.54.0")])).
    unfold valid_datetime. simpl. lia.
  - apply (prepare_record_timestamp (mkDatetime 2025 3 14 9 5 7 0)
      (VDict [("x", VList [VDict [("_timestamp", VInt 0)]])])).
    unfold valid_datetime. simpl. lia.
Defined.

(** C7. Two runs on the same document give the same result: the records
    prepared at two instants have the same keys and, [_timestamp] apart,
    the same values, those of the flattened document; and two bounded
    runs of [_flatten_dict] that return, whatever room each had, return
    the same dict. *)
Theorem flatten_deterministic status_data now1 now2 :
  dom (prepare_record now1 status_data) = dom (prepare_record now2 status_data)
  ∧ delete "_timestamp" (prepare_record now1 status_data)
    = delete "_timestamp" (prepare_record now2 status_data)
  ∧ delete "_timestamp" (prepare_record now1 status_data)
    = delete "_timestamp" (flatten status_data)
  ∧ (∀ fuel1 fuel2 parent_key sep r1 r2,
       flatten_fuel fuel1 status_data parent_key sep = Some r1 →
       flatten_fuel fuel2 status_data parent_key sep = Some r2 →
       r1 = r2).
Proof.
  unfold prepare_record. repeat split.
  - by rewrite !dom_insert_L.
  - by rewrite !delete_insert_eq.
  - by rewrite delete_insert_eq.
  - intros fuel1 fuel2 parent_key sep r1 r2 H1 H2.
    apply flatten_fuel_sound in H1, H2. congruence.
Qed.
Lemma flatten_deterministic_witness :
  delete "_timestamp"
    (prepare_record (mkDatetime 2025 3 14 9 5 7 0)
       (VDict [("Self", VDict [("ID", VInt 1)])]))
  = delete "_timestamp"
      (prepare_record (mkDatetime 2025 3 14 9 10 7 0)
         (VDict [("Self", VDict [("ID", VInt 1)])]))
  ∧ flatten_fuel 2 (VDict [("Self", VDict [("ID", VInt 1)])]) "" "_"
    = flatten_fuel 7 (VDict [("Self", VDict [("ID", VInt 1)])]) "" "_".
Proof.
  pose proof (flatten_deterministic (VDict [("Self", VDict [("ID", VInt 1)])])
                (mkDatetime 2025 3 14 9 5 7 0) (mkDatetime 2025 3 14 9 10 7 0))
    as (_ & Hrec & _ & Hfuel).
  split; [exact Hrec|].
  assert (∃ r1, flatten_fuel 2 (VDict [("Self", VDict [("ID", VInt 1)])]) "" "_"
                = Some r1) as [r1 H1] by (eexists; reflexivity).
  assert (∃ r2, flatten_fuel 7 (VDict [("Self", VDict [("ID", VInt 1)])]) "" "_"
                = Some r2) as [r2 H2] by (eexists; reflexivity).
  rewrite H1, H2. f_equal. exact (Hfuel 2%nat 7%nat "" "_" r1 r2 H1 H2).
Defined.
End timestamps.

(** ** Sequences *)

Section sequences.
Import collector.
Implicit Types items : gmap string value.

(** A key of the result was there at the start or was written by a
    child. *)
Lemma flatten_children_origin sep l : ∀ items key,
  is_Some (flatten_children sep l items !! key) →
  is_Some (items !! key)
  ∨ Exists (λ child, is_Some (flatten_item sep ∅ child !! key)) l.
Proof.
  induction l as [|child l IH]; intros items key; [by left|].
  rewrite flatten_children_cons. intros [H|H]%IH.
  - rewrite flatten_item_union in H.
    apply lookup_union_is_Some in H as [H|H]; [right; by left|by left].
  - right. by right.
Qed.

Lemma list_children_elem parent_key l : ∀ i K v,
  (K, v) ∈ list_children parent_key i l →
  ∃ j, (i ≤ j)%nat ∧ K = list_key parent_key j ∧ v ∈ l.
Proof.
  induction l as [|x l IH]; intros i K v; [by intros ?%elem_of_nil|].
  rewrite list_children_cons. intros [[= -> ->]|H]%elem_of_cons.
  - exists i. split; [lia|]. split; [done|]. by left.
  - apply IH in H as (j & Hj & -> & Hv).
    exists j. split; [lia|]. split; [done|]. by right.
Qed.

Lemma list_key_truthy parent_key i : str_truthy (list_key parent_key i) = true.
Proof.
  unfold list_key, str_nat. destruct (str_truthy parent_key).
  - apply str_truthy_app_r, str_truthy_app_r, str_N_nonempty.
  - apply str_N_nonempty.
Qed.

Lemma list_key_prefix parent_key i :
  list_key parent_key i = list_prefix parent_key ++ str_nat i.
Proof.
  unfold list_key, list_prefix. destruct (str_truthy parent_key); [|done].
  by rewrite str_app_assoc.
Qed.

(** Under a non-empty key [K] a child writes [K] itself or keys that
    start with [K_]. *)
Lemma item_keys n : ∀ K v key,
  height v < n → str_truthy K = true →
  is_Some (flatten_item "_" ∅ (K, v) !! key) →
  ∃ tail, key = K ++ tail ∧ is_tail tail.
Proof.
  induction n as [|n IH]; intros K v key Hh HK; [lia|].
  destruct (is_container v) eqn:Hv.
  2:{ rewrite flatten_item_scalar by done. rewrite insert_empty.
      intros [x [<- _]%lookup_singleton_Some].
      exists "". split; [by rewrite str_app_nil_r|by left]. }
  rewrite flatten_item_container, (right_id_L ∅ (∪)) by done.
  assert (∀ K' v', height v' < n → str_truthy K' = true →
            (∃ t, K' = K ++ "_" ++ t) →
            is_Some (flatten_item "_" ∅ (K', v') !! key) →
            ∃ tail, key = K ++ tail ∧ is_tail tail) as Hchild.
  { intros K' v' Hh' HK' [t ->] (tail & -> & _)%IH; [|done..].
    exists ("_" ++ t ++ tail). split; [|right; eauto].
    by rewrite !str_app_assoc. }
  destruct v as [| | | | |l|d]; try done.
  - apply height_children_list in Hh. rewrite flatten_dict_VList.
    intros [H|H]%flatten_children_origin;
      [by rewrite lookup_empty in H; destruct H|].
    apply Exists_exists in H as ([K' v'] & Hin & Hw).
    apply list_children_elem in Hin as (j & _ & -> & Hin).
    rewrite Forall_forall in Hh.
    apply (Hchild (list_key K j) v'); [by apply Hh|apply list_key_truthy| |done].
    exists (str_nat j). unfold list_key. by rewrite HK.
  - apply height_children_dict in Hh. rewrite flatten_dict_VDict.
    intros [H|H]%flatten_children_origin;
      [by rewrite lookup_empty in H; destruct H|].
    apply Exists_exists in H as ([K' v'] & Hin & Hw).
    apply list_elem_of_fmap in Hin as ([k v''] & [= -> ->] & Hin).
    rewrite Forall_forall in Hh. simpl in *.
    apply (Hchild (dict_key K "_" k) v'');
      [by apply (Hh (k, v''))| | |done].
    + unfold dict_key. rewrite HK. by apply str_truthy_app_r.
    + exists k. unfold dict_key. by rewrite HK.
Qed.

(** Numerals followed by tails are equal only when the numerals are. *)
Lemma digits_tail_inj a : ∀ b t1 t2,
  all_digits a = true → all_digits b = true → is_tail t1 → is_tail t2 →
  a ++ t1 = b ++ t2 → a = b.
Proof.
  assert (∀ c s t, is_digit c = true → is_tail t → t ≠ String c s) as Hno.
  { intros c s t Hc [->|[r ->]]; [done|]. rewrite str_app_cons.
    intros [= <- _]. done. }
  induction a as [|c a IH]; intros [|c' b] t1 t2 Ha Hb H1 H2; try done.
  - rewrite str_app_nil_l, str_app_cons. simpl in Hb.
    apply andb_true_iff in Hb as [Hc _]. intros H. by destruct (Hno c' (b ++ t2) t1).
  - rewrite str_app_nil_l, str_app_cons. simpl in Ha.
    apply andb_true_iff in Ha as [Hc _]. intros H. by destruct (Hno c (a ++ t1) t2).
  - rewrite !str_app_cons. simpl in Ha, Hb.
    apply andb_true_iff in Ha as [_ Ha]. apply andb_true_iff in Hb as [_ Hb].
    intros [= -> H]. f_equal. by apply (IH b t1 t2).
Qed.

(** Two elements of a sequence never write the same key. *)
Lemma list_items_disjoint parent_key i j v w key :
  i ≠ j →
  is_Some (flatten_item "_" ∅ (list_key parent_key i, v) !! key) →
  flatten_item "_" ∅ (list_key parent_key j, w) !! key = None.
Proof.
  intros Hij Hi. apply eq_None_not_Some. intros Hj.
  apply (item_keys (S (height v))) in Hi as (t1 & -> & Ht1);
    [|lia|apply list_key_truthy].
  apply (item_keys (S (height w))) in Hj as (t2 & Heq & Ht2);
    [|lia|apply list_key_truthy].
  rewrite !list_key_prefix, !str_app_assoc in Heq.
  apply str_app_inv_head, digits_tail_inj in Heq;
    [|apply str_N_digits|apply str_N_digits|done..].
  apply str_nat_inj in Heq. congruence.
Qed.

Lemma list_children_Forall (Q : string * value → Prop) parent_key l : ∀ i,
  (∀ j v, (i ≤ j)%nat → Q (list_key parent_key j, v)) →
  Forall Q (list_children parent_key i l).
Proof.
  induction l as [|x l IH]; intros i HQ; [constructor|].
  rewrite list_children_cons. constructor; [apply HQ; lia|].
  apply IH. intros j v Hj. apply HQ. lia.
Qed.

(** What the element at index [i] writes is part of the result. *)
Lemma list_item_kept l parent_key i v :
  l !! i = Some v →
  flatten_item "_" ∅ (list_key parent_key i, v)
  ⊆ flatten_dict (VList l) parent_key "_".
Proof.
  intros Hi. apply map_subseteq_spec. intros key x Hkey.
  rewrite <- (take_drop_middle l i v Hi).
  rewrite flatten_dict_VList, list_children_app, list_children_cons.
  rewrite Nat.add_0_l, length_take_le by (apply Nat.lt_le_incl; by eapply lookup_lt_Some).
  apply flatten_children_last_writer; [done|].
  apply list_children_Forall. intros j w Hj.
  apply (list_items_disjoint parent_key i j v w); [lia|by eexists].
Qed.
End sequences.

Section sequence_keys.
Import collector.

Lemma list_children_lookup parent_key l : ∀ i j v,
  l !! j = Some v →
  list_children parent_key i l !! j = Some (list_key parent_key (i + j), v).
Proof.
  induction l as [|x l IH]; intros i [|j] v; try done.
  - intros [= ->]. by rewrite Nat.add_0_r.
  - intros H. rewrite list_children_cons. simpl.
    rewrite (IH (S i) j v H). do 3 f_equal. lia.
Qed.

(** C4. In a sequence node with prefix [P] the element at index [i] gets
    the child key [P_i], or [str(i)] when [P] is empty, and is handled
    like the value of a mapping. With the default separator a scalar
    element is the value of its child key in the result, and the entries
    that flattening a dict or list element under its child key gives are
    all in the result. [{"items": ["x","y","z"]}] flattens to
    [items_0 -> "x"], [items_1 -> "y"], [items_2 -> "z"]. *)
Theorem flatten_sequence :
  (∀ l parent_key i v,
     l !! i = Some v →
     list_children parent_key 0 l !! i = Some (list_key parent_key i, v)
     ∧ list_key parent_key i
       = (if str_truthy parent_key then parent_key ++ "_" ++ str_nat i
          else str_nat i)
     ∧ (∀ sep, flatten_dict (VList l) parent_key sep
               = flatten_children sep (list_children parent_key 0 l) ∅)
     ∧ (is_container v = false →
          flatten_dict (VList l) parent_key "_" !! list_key parent_key i
          = Some v)
     ∧ (is_container v = true →
          flatten_dict v (list_key parent_key i) "_"
          ⊆ flatten_dict (VList l) parent_key "_"))
  ∧ flatten (VDict [("items", VList [VStr "x"; VStr "y"; VStr "z"])])
    = {[ "items_0" := VStr "x"; "items_1" := VStr "y"; "items_2" := VStr "z" ]}.
Proof.
  split; [|by vm_compute].
  intros l parent_key i v Hi. repeat split.
  - by rewrite (list_children_lookup parent_key l 0 i v).
  - intros sep. apply flatten_dict_VList.
  - intros Hv. pose proof (list_item_kept l parent_key i v Hi) as H.
    rewrite flatten_item_scalar, insert_empty in H by done.
    by apply map_singleton_subseteq_l.
  - intros Hv. pose proof (list_item_kept l parent_key i v Hi) as H.
    by rewrite flatten_item_container, (right_id_L ∅ (∪)) in H.
Qed.

Lemma flatten_sequence_witness :
  flatten_dict (VList [VStr "x"; VStr "y"; VStr "z"]) "items" "_" !! "items_1"
  = Some (VStr "y")
  ∧ flatten_dict (VList [VInt 4; VList [VInt 5; VInt 6]]) "" "_" !! "0"
    = Some (VInt 4)
  ∧ flatten_dict (VList [VInt 5; VInt 6]) "1" "_"
    ⊆ flatten_dict (VList [VInt 4; VList [VInt 5; VInt 6]]) "" "_".
Proof.
  split; [|split].
  - apply (proj1 flatten_sequence [VStr "x"; VStr "y"; VStr "z"] "items" 1%nat
             (VStr "y") eq_refl); reflexivity.
  - apply (proj1 flatten_sequence [VInt 4; VList [VInt 5; VInt 6]] "" 0%nat
             (VInt 4) eq_refl); reflexivity.
  - apply (proj1 flatten_sequence [VInt 4; VList [VInt 5; VInt 6]] "" 1%nat
             (VList [VInt 5; VInt 6]) eq_refl); reflexivity.
Defined.
End sequence_keys.

(** ** Paths and file names *)

Section paths.
Import collector.
Local Arguments Ascii.eqb : simpl never.
Local Arguments String.eqb : simpl never.

Lemma split_slash_plain s : ∀ cur,
  has_char "/" s = false → split_slash s cur = [cur ++ s].
Proof.
  induction s as [|c s IH]; intros cur; [by rewrite str_app_nil_r|].
  simpl. intros [Hc Hs]%orb_false_iff.
  rewrite Ascii.eqb_sym, Hc, IH by done.
  by rewrite str_app_assoc.
Qed.

Lemma root_of_plain s : has_char "/" s = false → root_of s = "".
Proof.
  destruct s as [|c s]; [done|]. simpl.
  intros [Hc _]%orb_false_iff.
  by destruct c as [[] [] [] [] [] [] [] []].
Qed.

Lemma Path_component s :
  is_component s = true → Path s = {| root := ""; parts := [s] |}.
Proof.
  intros [Hs Hk]%andb_true_iff. apply negb_true_iff in Hs.
  unfold Path. rewrite root_of_plain, split_slash_plain by done.
  rewrite str_app_nil_l. simpl. by rewrite Hk.
Qed.


Lemma joinpath_component p s :
  is_component s = true →
  joinpath p s = {| root := root p; parts := parts p ++ [s] |}.
Proof.
  intros Hs. unfold joinpath. by rewrite Path_component.
Qed.

(** A numeral is a path component. *)
Lemma digits_component s :
  all_digits s = true → str_truthy s = true → is_component s = true.
Proof.
  intros Hd Hs. unfold is_component, keep_part.
  rewrite all_digits_has_char by done.
  destruct s as [|c s]; [done|].
  apply negb_true_iff, orb_false_iff.
  split; apply String.eqb_neq; [done|].
  intros [= -> ->]. by vm_compute in Hd.
Qed.

Lemma year_month_path_parts self now :
  year_month_path self now
  = {| root := root (base_location self);
       parts := parts (base_location self)
                ++ [str_N (year now); zero_pad 2 (month now)] |}.
Proof.
  unfold year_month_path.
  rewrite (joinpath_component _ (str_N _))
    by (apply digits_component; [apply str_N_digits|apply str_N_nonempty]).
  rewrite joinpath_component.
  - simpl. by rewrite <- (assoc_L (++)).
  - apply digits_component; [apply zero_pad_digits|].
    unfold zero_pad. apply str_truthy_app_r, str_N_nonempty.
Qed.

(** Text without braces is copied by [str.format]. *)
Lemma format_go_plain s : ∀ date,
  brace_free s = true → format_go s None date = Ok s.
Proof.
  induction s as [|c s IH]; intros date; [done|].
  unfold brace_free. simpl.
  rewrite !negb_orb, !andb_true_iff, !negb_true_iff.
  intros [[Ho Hso] [Hc Hsc]].
  rewrite (Ascii.eqb_sym c "{"), Ho, (Ascii.eqb_sym c "}"), Hc.
  rewrite IH; [done|].
  unfold brace_free. by rewrite Hso, Hsc.
Qed.

Lemma format_go_app pre : ∀ rest date r,
  brace_free pre = true →
  format_go rest None date = Ok r →
  format_go (pre ++ rest) None date = Ok (pre ++ r).
Proof.
  induction pre as [|c pre IH]; intros rest date r; [done|].
  unfold brace_free. simpl.
  rewrite !negb_orb, !andb_true_iff, !negb_true_iff.
  intros [[Ho Hso] [Hc Hsc]] Hrest.
  rewrite !str_app_cons. simpl.
  rewrite (Ascii.eqb_sym c "{"), Ho, (Ascii.eqb_sym c "}"), Hc.
  rewrite (IH rest date r); [done| |done].
  unfold brace_free. by rewrite Hso, Hsc.
Qed.

(** A template with one field [{date}] between texts without braces. *)
Lemma str_format_date pre post date :
  brace_free pre = true → brace_free post = true →
  str_format (pre ++ "{date}" ++ post) date = Ok (pre ++ date ++ post).
Proof.
  intros Hpre Hpost. apply format_go_app; [done|].
  simpl. by rewrite format_go_plain.
Qed.
End paths.

(** ** The partition path *)

Section partition_path.
Import collector.

Lemma strftime_Ymd_shape now :
  valid_datetime now →
  all_digits (strftime_Ymd now) = true
  ∧ String.length (strftime_Ymd now) = 8%nat
  ∧ String.length (zero_pad 2 (month now)) = 2%nat
  ∧ ((1000 ≤ year now)%N →
       strftime_Ymd now
       = str_N (year now) ++ zero_pad 2 (month now) ++ zero_pad 2 (day now)).
Proof.
  intros (Hy & Hm & Hd & _). unfold strftime_Ymd. repeat split.
  - by rewrite !all_digits_app, !zero_pad_digits.
  - rewrite !str_length_app.
    rewrite (zero_pad_length _ 4), !(zero_pad_length _ 2);
      [done|lia|simpl; lia..].
  - apply zero_pad_length; [lia|simpl; lia].
  - intros Hy'. rewrite (zero_pad_wide (year now) 4); [done|].
    apply (str_N_length_lower (year now) 3). simpl. lia.
Qed.

End partition_path.

Section partition_path_cases.
Import collector.


(** Doubled braces stand for one brace; a field of another name raises. *)
Example str_format_braces :
  str_format "a{{b}}-{date}.parquet" "20250314" = Ok "a{b}-20250314.parquet"
  ∧ str_format "ts-{day}.parquet" "20250314" = Raise FormatError
  ∧ str_format "ts-{date.parquet" "20250314" = Raise FormatError.
Proof. by vm_compute. Qed.

End partition_path_cases.

(** ** Appending *)

Section appending.
Import collector.







End appending.

(** ** Configuration errors *)

Section configuration.
Import config.

Lemma dict_get_has d key v : dict_get d key = Some v → dict_has d key = true.
Proof.
  induction d as [|[k x] d IH]; [done|]. simpl.
  destruct (String.eqb k key); [done|]. apply IH.
Qed.

Lemma missing_fields_dict d :
  missing_fields required_fields (VDict d)
  = Ok (List.filter (λ field, negb (dict_has d field)) required_fields).
Proof.
  unfold required_fields. simpl.
  by destruct (dict_has d "interval"), (dict_has d "base_location").
Qed.

(** C8. [Config(...)] with an interval that is not above zero raises
    [ValueError], and so does [load_config] on a file with such an
    interval. [load_config] on a file that lacks [interval] or
    [base_location] raises a [ValueError] whose message lists the
    required fields that are missing. No [Config] is returned in these
    cases. *)
Theorem config_errors :
  (∀ interval base_location file_name_format dirs,
     le_zero interval = Ok true →
     Config_init interval base_location file_name_format dirs
     = Raise (ValueError "interval must be greater than 0"))
  ∧ (∀ z, (z ≤ 0)%Z → le_zero (VInt z) = Ok true)
  ∧ (∀ home documents dirs config_path d,
       documents !! path_str (resolve_path home config_path) = Some (VDict d) →
       let missing :=
         List.filter (λ field, negb (dict_has d field)) required_fields in
       missing ≠ [] →
       load_config home documents dirs config_path
       = Raise (ValueError ("Configuration is missing required fields: "
                            ++ String.concat ", " missing)))
  ∧ (∀ home documents dirs config_path d interval base_location,
       documents !! path_str (resolve_path home config_path) = Some (VDict d) →
       dict_get d "interval" = Some interval →
       dict_get d "base_location" = Some base_location →
       le_zero interval = Ok true →
       load_config home documents dirs config_path
       = Raise (ValueError "interval must be greater than 0")).
Proof.
  split; [|split; [|split]].
  - intros interval base_location file_name_format dirs H.
    unfold Config_init. by rewrite H.
  - intros z Hz. simpl. f_equal. by apply Z.leb_le.
  - intros home documents dirs config_path d Hdoc missing Hmissing.
    unfold load_config. rewrite Hdoc, missing_fields_dict.
    subst missing. unfold required_fields in *. simpl in *.
    by destruct (dict_has d "interval"), (dict_has d "base_location").
  - intros home documents dirs config_path d interval base_location
      Hdoc Hi Hb Hle.
    unfold load_config. rewrite Hdoc, missing_fields_dict.
    unfold required_fields. simpl.
    rewrite (dict_get_has _ _ _ Hi), (dict_get_has _ _ _ Hb). simpl.
    unfold getitem. rewrite Hi, Hb. simpl.
    unfold Config_init. by rewrite Hle.
Qed.

Lemma config_errors_witness :
  Config_init (VInt 0) (VStr "/data") (VStr default_file_name_format) ∅
  = Raise (ValueError "interval must be greater than 0")
  ∧ Config_init (VInt (-1)) (VStr "/data") (VStr default_file_name_format) ∅
    = Raise (ValueError "interval must be greater than 0")
  ∧ load_config (Path "/home/u")
      {[ "/home/u/.config/ts-status.yml" := VDict [("interval", VInt 60)] ]}
      ∅ None
    = Raise (ValueError
               "Configuration is missing required fields: base_location")
  ∧ load_config (Path "/home/u")
      {[ "/etc/ts.yml" := VDict [("file_name_format", VStr "x-{date}")] ]}
      ∅ (Some "/etc/ts.yml")
    = Raise (ValueError
               "Configuration is missing required fields: interval, base_location")
  ∧ load_config (Path "/home/u")
      {[ "/etc/ts.yml" := VDict [("interval", VInt 0);
                                 ("base_location", VStr "/data")] ]}
      ∅ (Some "/etc/ts.yml")
    = Raise (ValueError "interval must be greater than 0").
Proof.
  destruct config_errors as (Hinit & Hle & Hmissing & Hload).
  split; [|split; [|split; [|split]]].
  - apply Hinit, Hle. lia.
  - apply Hinit, Hle. lia.
  - apply (Hmissing (Path "/home/u") _ ∅ None [("interval", VInt 60)]);
      [reflexivity|discriminate].
  - apply (Hmissing (Path "/home/u") _ ∅ (Some "/etc/ts.yml")
             [("file_name_format", VStr "x-{date}")]);
      [reflexivity|discriminate].
  - apply (Hload (Path "/home/u") _ ∅ (Some "/etc/ts.yml")
             [("interval", VInt 0); ("base_location", VStr "/data")]
             (VInt 0) (VStr "/data"));
      reflexivity.
Defined.
End configuration.


(** ** What flattening keeps *)

Section flatten_invariants.
Import collector.
Implicit Types items : gmap string value.

Lemma flatten_dict_leaf v parent_key sep :
  is_container v = false →
  flatten_dict v parent_key sep = {[ parent_key := v ]}.
Proof. by destruct v. Qed.

Lemma height_elem_list l v : v ∈ l → height v < height (VList l).
Proof.
  intros Hin. pose proof (height_children_list l (height (VList l))) as H.
  rewrite Forall_forall in H. apply H; [|done]. simpl. lia.
Qed.

Lemma height_elem_dict d k v : (k, v) ∈ d → height v < height (VDict d).
Proof.
  intros Hin. pose proof (height_children_dict d (height (VDict d))) as H.
  rewrite Forall_forall in H. apply (H ltac:(simpl; lia) (k, v) Hin).
Qed.

(** Induction on the nesting depth. *)
Lemma value_height_ind (P : value → Prop) :
  (∀ v, (∀ w, height w < height v → P w) → P v) → ∀ v, P v.
Proof.
  intros Hstep v. remember (height v) as n eqn:Hn. revert v Hn.
  induction (lt_wf n) as [n _ IH]. intros v ->.
  apply Hstep. intros w Hw. by apply (IH (height w)).
Qed.

(** An entry of the result was there at the start or was written by a
    child. *)
Lemma flatten_children_source sep l : ∀ items key x,
  flatten_children sep l items !! key = Some x →
  items !! key = Some x
  ∨ Exists (λ child, flatten_item sep ∅ child !! key = Some x) l.
Proof.
  induction l as [|child l IH]; intros items key x; [by left|].
  rewrite flatten_children_cons. intros [H|H]%IH.
  - rewrite flatten_item_union in H.
    apply lookup_union_Some_raw in H as [H|[_ H]]; [right; by left|by left].
  - right. by right.
Qed.

(** The children of a node and their heights. *)
Lemma dict_children_elem parent_key sep d K v :
  (K, v) ∈ dict_children parent_key sep d →
  ∃ k, K = dict_key parent_key sep k ∧ (k, v) ∈ d.
Proof.
  intros ([k v'] & [= -> ->] & Hin)%list_elem_of_fmap. by exists k.
Qed.

(** An entry of a flattened container comes from one of its children. *)
Lemma flatten_container_source v parent_key sep key x :
  is_container v = true →
  flatten_dict v parent_key sep !! key = Some x →
  ∃ K w, height w < height v
    ∧ (∃ t, K = (if str_truthy parent_key then parent_key ++ t else t))
    ∧ flatten_item sep ∅ (K, w) !! key = Some x.
Proof.
  intros Hv. destruct v as [| | | | |l|d]; try done.
  - rewrite flatten_dict_VList.
    intros [H|H]%flatten_children_source; [by rewrite lookup_empty in H|].
    apply Exists_exists in H as ([K w] & Hin & Hw).
    apply list_children_elem in Hin as (j & _ & -> & Hin).
    exists (list_key parent_key j), w.
    split; [by apply height_elem_list|]. split; [|done].
    unfold list_key. destruct (str_truthy parent_key); eauto.
  - rewrite flatten_dict_VDict.
    intros [H|H]%flatten_children_source; [by rewrite lookup_empty in H|].
    apply Exists_exists in H as ([K w] & Hin & Hw).
    apply dict_children_elem in Hin as (k & -> & Hin).
    exists (dict_key parent_key sep k), w.
    split; [by eapply height_elem_dict|]. split; [|done].
    unfold dict_key. destruct (str_truthy parent_key); eauto.
Qed.

Lemma flatten_entry_shape obj : ∀ parent_key sep key x,
  flatten_dict obj parent_key sep !! key = Some x →
  is_container x = false ∧ ∃ rest, key = parent_key ++ rest.
Proof.
  induction obj as [obj IH] using value_height_ind.
  intros parent_key sep key x Hkey.
  destruct (is_container obj) eqn:Hobj.
  2:{ rewrite flatten_dict_leaf in Hkey by done.
      apply lookup_singleton_Some in Hkey as [<- <-].
      split; [done|]. exists "". by rewrite str_app_nil_r. }
  apply flatten_container_source in Hkey as (K & w & Hw & [t HK] & Hitem);
    [|done].
  assert (∃ t', K = parent_key ++ t') as [t' ->].
  { subst K. destruct parent_key; [by exists t|by exists t]. }
  destruct (is_container w) eqn:Hcw.
  - rewrite flatten_item_container, (right_id_L ∅ (∪)) in Hitem by done.
    apply (IH w Hw) in Hitem as [Hx [rest ->]].
    split; [done|]. exists (t' ++ rest). by rewrite str_app_assoc.
  - rewrite flatten_item_scalar, insert_empty in Hitem by done.
    apply lookup_singleton_Some in Hitem as [<- <-]. eauto.
Qed.

(** X1. The result of [_flatten_dict] is flat: none of its values is a dict
    or a list, for every document, prefix and separator. *)
Theorem flatten_values_scalar obj parent_key sep key x :
  flatten_dict obj parent_key sep !! key = Some x → is_container x = false.
Proof. intros H. by apply flatten_entry_shape in H as [? _]. Qed.

Lemma flatten_values_scalar_witness :
  is_container (VInt 1) = false.
Proof.
  apply (flatten_values_scalar
           (VDict [("Peers", VList [VDict [("ID", VInt 1)]])])
           "Self" "_" "Self_Peers_0_ID" (VInt 1)).
  reflexivity.
Defined.

(** X2. Every key of the result starts with the prefix [_flatten_dict] was
    called with: the entries of a nested value carry the key of their
    parent. *)
Theorem flatten_keys_prefix obj parent_key sep key :
  key ∈ dom (flatten_dict obj parent_key sep) → ∃ rest, key = parent_key ++ rest.
Proof.
  intros [x H]%elem_of_dom. by apply flatten_entry_shape in H as [_ ?].
Qed.

Lemma flatten_keys_prefix_witness :
  ∃ rest, "Self.Peers_0.ID" = "Self" ++ rest.
Proof.
  apply (flatten_keys_prefix
           (VDict [("Peers", VList [VDict [("ID", VInt 1)]])])
           "Self" "." "Self.Peers_0.ID").
  apply elem_of_dom. eexists. reflexivity.
Defined.

Lemma dict_children_top sep d : dict_children "" sep d = d.
Proof.
  unfold dict_children. induction d as [|[k v] d IH]; [done|].
  rewrite fmap_cons, IH. done.
Qed.

Lemma flat_children_miss (d : list (string * value)) key :
  Forall (λ kv, is_container kv.2 = false) d → key ∉ d.*1 →
  Forall (λ child, flatten_item "_" ∅ child !! key = None) d.
Proof.
  intros Hflat Hkey. apply Forall_forall. intros [k v] Hin.
  rewrite Forall_forall in Hflat.
  rewrite flatten_item_scalar, insert_empty by (by apply (Hflat (k, v))).
  apply lookup_singleton_ne. intros ->. apply Hkey.
  apply list_elem_of_fmap. by exists (key, v).
Qed.

Lemma flatten_flat_dict (d : list (string * value)) :
  Forall (λ kv, is_container kv.2 = false) d → NoDup d.*1 →
  flatten (VDict d) = list_to_map d.
Proof.
  intros Hflat Hnodup. unfold flatten.
  rewrite flatten_dict_VDict, dict_children_top.
  apply map_eq. intros key.
  destruct (decide (key ∈ d.*1)) as [Hin|Hnin].
  - apply list_elem_of_fmap in Hin as ([k v] & -> & Hin). simpl.
    rewrite (proj1 (elem_of_list_to_map _ _ _ Hnodup) Hin).
    apply list_elem_of_split in Hin as (l1 & l2 & ->).
    rewrite fmap_app, fmap_cons in Hnodup.
    apply NoDup_app in Hnodup as (_ & _ & [Hk _]%NoDup_cons).
    apply Forall_app in Hflat as [_ [Hv Hl2]%Forall_cons].
    apply flatten_children_last_writer.
    + rewrite flatten_item_scalar, insert_empty by done.
      apply lookup_singleton_eq.
    + by apply flat_children_miss.
  - rewrite (not_elem_of_list_to_map_1 _ _ Hnin).
    rewrite flatten_children_untouched; [done|].
    by apply flat_children_miss.
Qed.

(** X3. A dict that is already flat is returned as it is: when no value is
    a dict or a list, [_flatten_dict] with the default arguments gives the
    same keys with the same values. *)
Theorem flatten_flat (d : list (string * value)) :
  Forall (λ kv, is_container kv.2 = false) d → NoDup d.*1 →
  flatten (VDict d) = list_to_map d.
Proof. apply flatten_flat_dict. Qed.

Lemma flatten_flat_witness :
  flatten (VDict [("Version", VStr "1.54.0"); ("Online", VBool true)])
  = list_to_map [("Version", VStr "1.54.0"); ("Online", VBool true)].
Proof.
  apply (flatten_flat [("Version", VStr "1.54.0"); ("Online", VBool true)]).
  - repeat constructor.
  - compute_done.
Defined.

(** X4. Flattening is idempotent: flattening the flattened document gives
    the flattened document. *)
Theorem flatten_idempotent obj :
  flatten (VDict (map_to_list (flatten obj))) = flatten obj.
Proof.
  rewrite flatten_flat_dict.
  - apply list_to_map_to_list.
  - apply Forall_forall. intros [k v] Hin%elem_of_map_to_list.
    by apply flatten_entry_shape in Hin as [? _].
  - apply NoDup_fst_map_to_list.
Qed.
(** *** Counting entries *)

Lemma map_size_union_le (m1 m2 : gmap string value) :
  (size (m1 ∪ m2) ≤ size m1 + size m2)%nat.
Proof.
  rewrite <- !size_dom, dom_union_L, size_union_alt.
  by apply Nat.add_le_mono_l, subseteq_size, subseteq_difference_l.
Qed.

Lemma leaf_count_scalar v : is_container v = false → leaf_count v = 1%nat.
Proof. by destruct v. Qed.

Lemma flatten_children_size_le sep l : ∀ items,
  (size (flatten_children sep l items)
   ≤ size items + sum_list ((λ c, size (flatten_item sep ∅ c)) <$> l))%nat.
Proof.
  induction l as [|c l IH]; intros items; [simpl; lia|].
  rewrite flatten_children_cons, fmap_cons. simpl.
  etrans; [apply IH|]. rewrite flatten_item_union.
  pose proof (map_size_union_le (flatten_item sep ∅ c) items). lia.
Qed.

Lemma flatten_children_size sep l : ∀ items,
  all_disjoint (flatten_item sep ∅ <$> l) →
  Forall (λ c, flatten_item sep ∅ c ##ₘ items) l →
  size (flatten_children sep l items)
  = (size items + sum_list ((λ c, size (flatten_item sep ∅ c)) <$> l))%nat.
Proof.
  induction l as [|c l IH]; intros items; [simpl; lia|].
  rewrite fmap_cons. intros [Hc Hl] [Hci Hli]%Forall_cons.
  rewrite flatten_children_cons, fmap_cons. simpl.
  rewrite IH.
  - rewrite flatten_item_union, map_size_disj_union by done. lia.
  - done.
  - apply Forall_forall. intros c' Hc'.
    rewrite (flatten_item_union sep items c).
    apply map_disjoint_union_r. split.
    + symmetry. rewrite Forall_fmap, Forall_forall in Hc. by apply Hc.
    + rewrite Forall_forall in Hli. by apply Hli.
Qed.

(** The leaves of a node, child by child. *)
Lemma dict_children_leaves (f : string * value → nat) parent_key sep d :
  (∀ k w, (k, w) ∈ d → f (dict_key parent_key sep k, w) = leaf_count w) →
  sum_list (f <$> dict_children parent_key sep d) = leaf_count (VDict d).
Proof.
  unfold dict_children. induction d as [|[k w] d IH]; intros Hf; [done|].
  rewrite !fmap_cons. simpl. rewrite (Hf k w) by left.
  f_equal. apply IH. intros k' w' Hin. apply Hf. by right.
Qed.

Lemma list_children_leaves (f : string * value → nat) parent_key l : ∀ i,
  (∀ j w, w ∈ l → f (list_key parent_key j, w) = leaf_count w) →
  sum_list (f <$> list_children parent_key i l) = leaf_count (VList l).
Proof.
  induction l as [|w l IH]; intros i Hf; [done|].
  rewrite list_children_cons, fmap_cons. simpl. rewrite (Hf i w) by left.
  f_equal. apply IH. intros j w' Hin. apply Hf. by right.
Qed.

Lemma dict_children_bound (f : string * value → nat) parent_key sep d :
  (∀ k w, (k, w) ∈ d → (f (dict_key parent_key sep k, w) ≤ leaf_count w)%nat) →
  (sum_list (f <$> dict_children parent_key sep d) ≤ leaf_count (VDict d))%nat.
Proof.
  unfold dict_children. induction d as [|[k w] d IH]; intros Hf; [done|].
  rewrite !fmap_cons. simpl. pose proof (Hf k w ltac:(left)).
  apply Nat.add_le_mono; [done|]. apply IH. intros k' w' Hin. apply Hf. by right.
Qed.

Lemma list_children_bound (f : string * value → nat) parent_key l : ∀ i,
  (∀ j w, w ∈ l → (f (list_key parent_key j, w) ≤ leaf_count w)%nat) →
  (sum_list (f <$> list_children parent_key i l) ≤ leaf_count (VList l))%nat.
Proof.
  induction l as [|w l IH]; intros i Hf; [done|].
  rewrite list_children_cons, fmap_cons. simpl. pose proof (Hf i w ltac:(left)).
  apply Nat.add_le_mono; [done|]. apply IH. intros j w' Hin. apply Hf. by right.
Qed.

(** X5. Flattening never gives more entries than the document has scalar
    leaves; colliding keys can only make them fewer. *)
Theorem flatten_size_le obj : ∀ parent_key sep,
  (size (flatten_dict obj parent_key sep) ≤ leaf_count obj)%nat.
Proof.
  induction obj as [obj IH] using value_height_ind. intros parent_key sep.
  assert (∀ K w, height w < height obj →
            (size (flatten_item sep ∅ (K, w)) ≤ leaf_count w)%nat) as Hitem.
  { intros K w Hw. destruct (is_container w) eqn:Hcw.
    - rewrite flatten_item_container, (right_id_L ∅ (∪)) by done. by apply IH.
    - rewrite flatten_item_scalar, insert_empty, map_size_singleton by done.
      by rewrite leaf_count_scalar. }
  destruct obj as [| | | | |l|d];
    try (rewrite flatten_dict_leaf, map_size_singleton by done; done).
  - rewrite flatten_dict_VList.
    etrans; [apply flatten_children_size_le|]. rewrite map_size_empty. simpl.
    apply (list_children_bound (λ c, size (flatten_item sep ∅ c))).
    intros j w Hin. by apply Hitem, height_elem_list.
  - rewrite flatten_dict_VDict.
    etrans; [apply flatten_children_size_le|]. rewrite map_size_empty. simpl.
    apply (dict_children_bound (λ c, size (flatten_item sep ∅ c))).
    intros k w Hin. eapply Hitem, height_elem_dict, Hin.
Qed.
(** *** Documents whose keys cannot collide *)

Lemma forallb_Forall {A} (f : A → bool) (l : list A) :
  forallb f l = true ↔ Forall (λ x, f x = true) l.
Proof.
  rewrite forallb_forall, Forall_forall.
  split; intros H x Hx; apply H; by apply list_elem_of_In.
Qed.

Lemma keys_clean_dict d :
  keys_clean (VDict d) = true →
  Forall (λ k, key_ok k = true) d.*1 ∧ NoDup d.*1
  ∧ Forall (λ kv, keys_clean kv.2 = true) d.
Proof.
  simpl. intros [[Hk Hn]%andb_true_iff Hc]%andb_true_iff.
  apply forallb_Forall in Hk, Hc. by apply bool_decide_eq_true in Hn.
Qed.

Lemma keys_clean_list l :
  keys_clean (VList l) = true → Forall (λ v, keys_clean v = true) l.
Proof. simpl. apply forallb_Forall. Qed.

(** Keys without underscore followed by tails are equal only when the keys
    are. *)
Lemma clean_tail_inj a : ∀ b t1 t2,
  has_char "_" a = false → has_char "_" b = false →
  is_tail t1 → is_tail t2 → a ++ t1 = b ++ t2 → a = b.
Proof.
  assert (∀ c s t, has_char "_" (String c s) = false → is_tail t →
            t ≠ String c (s ++ t)%string ∧ ∀ u, t ≠ String c u) as Hno.
  { intros c s t Hc Ht. assert (∀ u, t ≠ String c u) as H; [|by split].
    intros u. destruct Ht as [->|[r ->]]; [done|]. rewrite str_app_cons.
    intros [= <- _]. by simpl in Hc. }
  induction a as [|c a IH]; intros [|c' b] t1 t2 Ha Hb H1 H2; try done.
  - rewrite str_app_nil_l, str_app_cons. intros H.
    by destruct (proj2 (Hno c' b t1 Hb H1) (b ++ t2)).
  - rewrite str_app_nil_l, str_app_cons. intros H.
    by destruct (proj2 (Hno c a t2 Ha H2) (a ++ t1)).
  - rewrite !str_app_cons. simpl in Ha, Hb.
    apply orb_false_iff in Ha as [_ Ha]. apply orb_false_iff in Hb as [_ Hb].
    intros [= -> H]. f_equal. by apply (IH b t1 t2).
Qed.

Lemma dict_key_prefix parent_key k :
  dict_key parent_key "_" k = list_prefix parent_key ++ k.
Proof.
  unfold dict_key, list_prefix. destruct (str_truthy parent_key); [|done].
  by rewrite str_app_assoc.
Qed.

Lemma dict_key_truthy parent_key sep k :
  str_truthy k = true → str_truthy (dict_key parent_key sep k) = true.
Proof.
  intros Hk. unfold dict_key. destruct (str_truthy parent_key); [|done].
  by apply str_truthy_app_r, str_truthy_app_r.
Qed.

(** Two values of a dict under different clean keys never write the same
    key. *)
Lemma dict_items_disjoint parent_key k k' v v' :
  key_ok k = true → key_ok k' = true → k ≠ k' →
  flatten_item "_" ∅ (dict_key parent_key "_" k, v)
  ##ₘ flatten_item "_" ∅ (dict_key parent_key "_" k', v').
Proof.
  intros [Hk Hu]%andb_true_iff [Hk' Hu']%andb_true_iff Hne.
  apply negb_true_iff in Hu, Hu'.
  apply map_disjoint_spec. intros key x y Hx Hy.
  apply mk_is_Some, (item_keys (S (height v))) in Hx as (t1 & -> & Ht1);
    [|lia|by apply dict_key_truthy].
  apply mk_is_Some, (item_keys (S (height v'))) in Hy as (t2 & Heq & Ht2);
    [|lia|by apply dict_key_truthy].
  rewrite !dict_key_prefix, !str_app_assoc in Heq.
  apply str_app_inv_head, clean_tail_inj in Heq; done.
Qed.

Lemma dict_children_disjoint parent_key d :
  Forall (λ k, key_ok k = true) d.*1 → NoDup d.*1 →
  all_disjoint (flatten_item "_" ∅ <$> dict_children parent_key "_" d).
Proof.
  unfold dict_children.
  induction d as [|[k v] d IH]; [done|].
  rewrite !fmap_cons.
  intros [Hk Hd]%Forall_cons [Hnin Hnodup]%NoDup_cons. simpl.
  split; [|by apply IH].
  rewrite <- list_fmap_compose. apply Forall_fmap, Forall_forall.
  intros [k' v'] Hin. simpl.
  apply dict_items_disjoint; [done| |].
  - rewrite Forall_forall in Hd. apply Hd.
    apply list_elem_of_fmap. by exists (k', v').
  - intros ->. apply Hnin. apply list_elem_of_fmap. by exists (k', v').
Qed.

Lemma list_children_disjoint parent_key l : ∀ i,
  all_disjoint (flatten_item "_" ∅ <$> list_children parent_key i l).
Proof.
  induction l as [|v l IH]; intros i; [done|].
  rewrite list_children_cons, fmap_cons. simpl. split; [|apply IH].
  apply Forall_fmap, Forall_forall. intros [K w] Hin. simpl.
  apply list_children_elem in Hin as (j & Hj & -> & _).
  apply map_disjoint_spec. intros key x y Hx Hy.
  rewrite (list_items_disjoint parent_key i j v w key) in Hy;
    [done|lia|by eexists].
Qed.

(** X6. No leaf is lost when the keys cannot collide: for a document whose
    dict keys are not empty, have no underscore and are not repeated within
    a dict, flattening with the default separator gives one entry for each
    scalar leaf. *)
Theorem flatten_size_clean obj : ∀ parent_key,
  keys_clean obj = true →
  size (flatten_dict obj parent_key "_") = leaf_count obj.
Proof.
  induction obj as [obj IH] using value_height_ind. intros parent_key Hclean.
  assert (∀ K w, height w < height obj → keys_clean w = true →
            size (flatten_item "_" ∅ (K, w)) = leaf_count w) as Hitem.
  { intros K w Hw Hcw. destruct (is_container w) eqn:Hc.
    - rewrite flatten_item_container, (right_id_L ∅ (∪)) by done. by apply IH.
    - rewrite flatten_item_scalar, insert_empty, map_size_singleton by done.
      by rewrite leaf_count_scalar. }
  destruct obj as [| | | | |l|d];
    try (rewrite flatten_dict_leaf, map_size_singleton by done; done).
  - apply keys_clean_list in Hclean. rewrite Forall_forall in Hclean.
    rewrite flatten_dict_VList, flatten_children_size.
    + rewrite map_size_empty. simpl.
      apply (list_children_leaves (λ c, size (flatten_item "_" ∅ c))).
      intros j w Hin. apply Hitem; [by apply height_elem_list|by apply Hclean].
    + apply list_children_disjoint.
    + apply Forall_forall. intros c _. apply map_disjoint_empty_r.
  - apply keys_clean_dict in Hclean as (Hk & Hnodup & Hc).
    rewrite Forall_forall in Hc.
    rewrite flatten_dict_VDict, flatten_children_size.
    + rewrite map_size_empty. simpl.
      apply (dict_children_leaves (λ c, size (flatten_item "_" ∅ c))).
      intros k w Hin.
      apply Hitem; [by eapply height_elem_dict|by apply (Hc (k, w))].
    + by apply dict_children_disjoint.
    + apply Forall_forall. intros c _. apply map_disjoint_empty_r.
Qed.

Lemma flatten_size_clean_witness :
  size (flatten
          (VDict [("Self", VDict [("ID", VInt 1); ("Online", VBool true)]);
                  ("TailscaleIPs", VList [VStr "100.64.0.1"; VStr "fd7a::1"])]))
  = 4%nat.
Proof.
  apply (flatten_size_clean
          (VDict [("Self", VDict [("ID", VInt 1); ("Online", VBool true)]);
                  ("TailscaleIPs", VList [VStr "100.64.0.1"; VStr "fd7a::1"])])
          "").
  reflexivity.
Defined.
End flatten_invariants.

(** ** What [save_status] does to the files *)

Section storage.
Import collector.
Local Arguments Ascii.eqb : simpl never.
Local Arguments String.eqb : simpl never.



(** *** Reading a padded numeral back *)

Lemma uint_of_string_zeros k d :
  NilEmpty.uint_of_string (zeros k ++ NilEmpty.string_of_uint d)
  = Some (Nat.iter k Decimal.D0 d).
Proof.
  induction k as [|k IH]; [apply NilEmpty.usu|].
  change (zeros (S k)) with (String "0" (zeros k)).
  rewrite str_app_cons. simpl. by rewrite IH.
Qed.

Lemma of_uint_zeros k d : N.of_uint (Nat.iter k Decimal.D0 d) = N.of_uint d.
Proof. induction k as [|k IH]; [done|]. simpl. apply IH. Qed.

Lemma zero_pad_inj w a b : zero_pad w a = zero_pad w b → a = b.
Proof.
  unfold zero_pad, str_N. intros H.
  apply (f_equal NilEmpty.uint_of_string) in H.
  rewrite !uint_of_string_zeros in H. injection H as H.
  apply (f_equal N.of_uint) in H.
  by rewrite !of_uint_zeros, !DecimalN.Unsigned.of_to in H.
Qed.

Lemma str_app_inj_length a : ∀ b s t,
  String.length a = String.length b → a ++ s = b ++ t → a = b ∧ s = t.
Proof.
  induction a as [|c a IH]; intros [|c' b] s t Hlen; try done.
  rewrite !str_app_cons. intros [= -> H].
  apply IH in H as [-> ->]; [done|]. simpl in Hlen. lia.
Qed.

(** The eight digits determine the day. *)
Lemma strftime_Ymd_inj t1 t2 :
  valid_datetime t1 → valid_datetime t2 →
  strftime_Ymd t1 = strftime_Ymd t2 → same_day t1 t2.
Proof.
  intros (Hy1 & Hm1 & Hd1 & _) (Hy2 & Hm2 & Hd2 & _). unfold strftime_Ymd.
  intros [Hy [Hm Hd]%str_app_inj_length]%str_app_inj_length.
  - repeat split; by eapply zero_pad_inj.
  - rewrite !(zero_pad_length _ 2); [done|lia|simpl; lia..].
  - rewrite !(zero_pad_length _ 4); [done|lia|simpl; lia..].
Qed.

(** The name that a template with the field [{date}] between plain texts
    renders to is a path component. *)
Lemma rendered_component pre post now :
  valid_datetime now →
  has_char "/" pre = false → has_char "/" post = false →
  is_component (pre ++ strftime_Ymd now ++ post) = true.
Proof.
  intros Hnow Hpre Hpost.
  destruct (strftime_Ymd_shape now Hnow) as (Hdig & Hlen & _).
  unfold is_component, keep_part.
  rewrite !has_char_app, Hpre, Hpost, all_digits_has_char by done. simpl.
  apply negb_true_iff, orb_false_iff.
  split; apply String.eqb_neq; intros H; apply (f_equal String.length) in H;
    rewrite !str_length_app, Hlen in H; simpl in H; lia.
Qed.

(** X8. One file for each day: with a template that has the field [{date}]
    between texts without brace or slash, two calls that return the same
    path were made on the same day. *)
Theorem save_status_distinct_days self pre post now1 now2 stamp1 stamp2
    doc1 doc2 fs1 fs2 :
  file_name_format self = pre ++ "{date}" ++ post →
  brace_free pre = true → brace_free post = true →
  has_char "/" pre = false → has_char "/" post = false →
  valid_datetime now1 → valid_datetime now2 →
  (save_status self now1 stamp1 doc1 fs1).1
  = (save_status self now2 stamp2 doc2 fs2).1 →
  same_day now1 now2.
Proof.
  intros Htpl Hpre Hpost Hspre Hspost Hnow1 Hnow2.
  unfold save_status. rewrite Htpl, !str_format_date by done. simpl.
  rewrite !joinpath_component, !year_month_path_parts
    by (by apply rendered_component).
  simpl. intros [= H].
  apply app_inj_tail in H as [_ H].
  apply str_app_inv_head, str_app_inj_length in H as [H _].
  - by apply strftime_Ymd_inj.
  - destruct (strftime_Ymd_shape now1 Hnow1) as (_ & -> & _).
    by destruct (strftime_Ymd_shape now2 Hnow2) as (_ & -> & _).
Qed.

Lemma save_status_distinct_days_witness :
  same_day (mkDatetime 2025 3 14 0 0 1 0) (mkDatetime 2025 3 14 23 59 59 0).
Proof.
  apply (save_status_distinct_days
           (mkCollector (Path "/data") "tailscale-status-{date}.parquet")
           "tailscale-status-" ".parquet"
           (mkDatetime 2025 3 14 0 0 1 0) (mkDatetime 2025 3 14 23 59 59 0)
           (mkDatetime 2025 3 14 0 0 1 0) (mkDatetime 2025 3 14 23 59 59 0)
           (VDict []) (VDict []) (mkFilesystem ∅ ∅) (mkFilesystem ∅ ∅));
    try reflexivity; unfold valid_datetime; simpl; lia.
Defined.
End storage.


(** ** Directories and rows *)

Section growth.
Import collector.

Lemma ancestors_from_elem r l : ∀ pre k,
  (0 < k ≤ length l)%nat →
  path_str {| root := r; parts := pre ++ take k l |} ∈ ancestors_from r pre l.
Proof.
  induction l as [|x l IH]; intros pre k [Hk Hl]; [simpl in Hl; lia|].
  destruct k as [|[|k]]; [lia|left|].
  simpl. right. rewrite (cons_middle x pre), (assoc_L (++)).
  apply IH. simpl in Hl. lia.
Qed.

(** X9. [save_status] makes the directory of the month and all the
    directories above it, the base location among them, and removes none;
    it does so before the file name is rendered, so the directories are
    there even when rendering raises, and no file is written then. *)
Theorem save_status_makes_directories self now stamp status_data fs :
  let out := save_status self now stamp status_data fs in
  dirs fs ⊆ dirs out.2
  ∧ path_str (year_month_path self now) ∈ dirs out.2
  ∧ (∀ k, (0 < k ≤ length (parts (base_location self)) + 2)%nat →
       path_str {| root := root (base_location self);
                   parts := take k (parts (base_location self)
                                    ++ [str_N (year now); zero_pad 2 (month now)]) |}
       ∈ dirs out.2)
  ∧ (∀ e, out.1 = Raise e → tables out.2 = tables fs).
Proof.
  intros out.
  assert (dirs out.2 = mkdir_parents (year_month_path self now) (dirs fs)) as ->.
  { unfold out, save_status. by destruct (str_format _ _). }
  assert (∀ k, (0 < k ≤ length (parts (base_location self)) + 2)%nat →
            path_str {| root := root (base_location self);
                        parts := take k (parts (base_location self)
                                   ++ [str_N (year now); zero_pad 2 (month now)]) |}
            ∈ mkdir_parents (year_month_path self now) (dirs fs)) as Hk.
  { intros k Hk. unfold mkdir_parents. apply elem_of_union_l, elem_of_list_to_set.
    rewrite year_month_path_parts. simpl.
    apply (ancestors_from_elem _ _ [] k). rewrite length_app. simpl. lia. }
  split; [unfold mkdir_parents; set_solver|]. split; [|split; [done|]].
  - specialize (Hk (length (parts (base_location self)) + 2)%nat ltac:(lia)).
    rewrite firstn_all2 in Hk by (rewrite length_app; simpl; lia).
    by rewrite <- year_month_path_parts in Hk.
  - intros e. unfold out, save_status. by destruct (str_format _ _).
Qed.




End growth.

(** ** The polling loop *)

Section driver.
Import collector main.
Variable json_loads : string → value + string.
Variable self : TailscaleCollector.





End driver.

Section driver_cases.
Import collector main.


End driver_cases.

(** ** Loading a configuration *)

Section loading.
Import config.

Lemma dict_has_get d key :
  dict_has d key = true → ∃ v, dict_get d key = Some v.
Proof.
  induction d as [|[k x] d IH]; [done|]. simpl.
  destruct (String.eqb k key); [by exists x|]. apply IH.
Qed.

Lemma Config_init_Ok interval base_location file_name_format dirs cfg dirs' :
  Config_init interval base_location file_name_format dirs = Ok (cfg, dirs') →
  le_zero interval = Ok false
  ∧ ∃ s, base_location = VStr s
      ∧ cfg = {| config.interval := interval;
                 config.base_location := Path s;
                 config.file_name_format := file_name_format |}
      ∧ dirs' = mkdir_parents (Path s) dirs.
Proof.
  unfold Config_init.
  destruct (le_zero interval) as [[]|]; simpl; try done.
  destruct base_location; try done.
  intros [= <- <-]. split; [done|]. by eexists.
Qed.



Lemma load_config_fields home documents dirs config_path d
    interval base_location :
  documents !! path_str (resolve_path home config_path) = Some (VDict d) →
  dict_get d "interval" = Some interval →
  dict_get d "base_location" = Some base_location →
  load_config home documents dirs config_path
  = Config_init interval base_location
      (default (VStr "tailscale-status-{date}.parquet")
               (dict_get d "file_name_format"))
      dirs.
Proof.
  intros Hdoc Hi Hb. unfold load_config.
  rewrite Hdoc, missing_fields_dict. unfold required_fields. simpl.
  rewrite (dict_get_has _ _ _ Hi), (dict_get_has _ _ _ Hb). simpl.
  unfold getitem. by rewrite Hi, Hb.
Qed.

(** X14. A file that is a mapping with [interval] and [base_location] is
    loaded as [Config] is constructed from its fields, with the default
    template when [file_name_format] is not in the file. *)
Theorem load_config_complete home documents dirs config_path d
    interval base_location :
  documents !! path_str (resolve_path home config_path) = Some (VDict d) →
  dict_get d "interval" = Some interval →
  dict_get d "base_location" = Some base_location →
  load_config home documents dirs config_path
  = Config_init interval base_location
      (default (VStr "tailscale-status-{date}.parquet")
               (dict_get d "file_name_format"))
      dirs.
Proof. apply load_config_fields. Qed.

Lemma load_config_complete_witness :
  load_config (Path "/home/u")
    {[ "/home/u/.config/ts-status.yml" :=
         VDict [("interval", VInt 60); ("base_location", VStr "/data")] ]}
    ∅ None
  = Ok ({| config.interval := VInt 60;
           config.base_location := Path "/data";
           config.file_name_format := VStr "tailscale-status-{date}.parquet" |},
        {[ "/data" ]}).
Proof.
  etrans.
  - apply (load_config_complete (Path "/home/u")
             {[ "/home/u/.config/ts-status.yml" :=
                  VDict [("interval", VInt 60); ("base_location", VStr "/data")] ]}
             ∅ None
             [("interval", VInt 60); ("base_location", VStr "/data")]
             (VInt 60) (VStr "/data"));
      reflexivity.
  - by vm_compute.
Defined.

Lemma load_config_not_dict home documents dirs config_path doc :
  documents !! path_str (resolve_path home config_path) = Some doc →
  (∀ d, doc ≠ VDict d) →
  ∃ e, load_config home documents dirs config_path = Raise e.
Proof.
  intros Hdoc Hnd. unfold load_config. rewrite Hdoc.
  destruct doc as [|b|z|f|s|l|d]; try (by eexists).
  - unfold required_fields. simpl.
    destruct (bool_decide _), (bool_decide _); by eexists.
  - unfold required_fields. simpl.
    destruct (existsb _ l), (existsb _ l); by eexists.
  - by destruct (Hnd d).
Qed.

(** X15. What [load_config] returns comes from a mapping in the file: a
    [Config] is returned only when the file holds a mapping with [interval]
    and [base_location], [interval <= 0] is false for its interval and its
    base location is a string; the [Config] has these fields and the
    template of the file, or the default one. *)
Theorem load_config_sound home documents dirs config_path cfg dirs' :
  load_config home documents dirs config_path = Ok (cfg, dirs') →
  ∃ d s,
    documents !! path_str (resolve_path home config_path) = Some (VDict d)
    ∧ dict_get d "interval" = Some (config.interval cfg)
    ∧ le_zero (config.interval cfg) = Ok false
    ∧ dict_get d "base_location" = Some (VStr s)
    ∧ config.base_location cfg = Path s
    ∧ config.file_name_format cfg
      = default (VStr "tailscale-status-{date}.parquet")
                (dict_get d "file_name_format")
    ∧ dirs' = mkdir_parents (Path s) dirs.
Proof.
  intros Hload.
  destruct (documents !! path_str (resolve_path home config_path))
    as [doc|] eqn:Hdoc; [|by unfold load_config in Hload; rewrite Hdoc in Hload].
  assert ((∃ d, doc = VDict d) ∨ (∀ d, doc ≠ VDict d)) as [[d ->]|Hnd]
    by (destruct doc; eauto; right; intros d'; discriminate).
  2:{ destruct (load_config_not_dict home documents dirs config_path doc Hdoc)
        as [e He]; [done|congruence]. }
  destruct (dict_has d "interval") eqn:Hi, (dict_has d "base_location") eqn:Hb;
    try (unfold load_config in Hload;
         rewrite Hdoc, missing_fields_dict in Hload;
         unfold required_fields in Hload; simpl in Hload;
         rewrite Hi, Hb in Hload; by simpl in Hload).
  apply dict_has_get in Hi as [interval Hi], Hb as [base Hb].
  rewrite (load_config_fields _ _ _ _ d interval base) in Hload by done.
  apply Config_init_Ok in Hload as (Hle & s & -> & -> & ->).
  by exists d, s.
Qed.

Lemma load_config_sound_witness :
  ∃ d s,
    ({[ "/etc/ts.yml" :=
          VDict [("interval", VFloat (S754_finite false 3 (-1)));
                 ("base_location", VStr "data")] ]} : gmap string value)
      !! path_str (resolve_path (Path "/home/u") (Some "/etc/ts.yml"))
    = Some (VDict d)
    ∧ dict_get d "interval" = Some (VFloat (S754_finite false 3 (-1)))
    ∧ le_zero (VFloat (S754_finite false 3 (-1))) = Ok false
    ∧ dict_get d "base_location" = Some (VStr s)
    ∧ Path "data" = Path s
    ∧ VStr "tailscale-status-{date}.parquet"
      = default (VStr "tailscale-status-{date}.parquet")
                (dict_get d "file_name_format")
    ∧ ({[ "data" ]} : gset string) = mkdir_parents (Path s) ∅.
Proof.
  apply (load_config_sound (Path "/home/u")
           {[ "/etc/ts.yml" :=
                VDict [("interval", VFloat (S754_finite false 3 (-1)));
                       ("base_location", VStr "data")] ]}
           ∅ (Some "/etc/ts.yml")
           {| config.interval := VFloat (S754_finite false 3 (-1));
              config.base_location := Path "data";
              config.file_name_format := VStr "tailscale-status-{date}.parquet" |}
           {[ "data" ]}).
  by vm_compute.
Defined.

(** X16. A file whose top level is not a mapping is never loaded: an empty
    file, a scalar, a string or a list raises, also a string or a list that
    contains the names of the required fields. *)
Theorem load_config_not_mapping home documents dirs config_path doc :
  documents !! path_str (resolve_path home config_path) = Some doc →
  (∀ d, doc ≠ VDict d) →
  ∃ e, load_config home documents dirs config_path = Raise e.
Proof. apply load_config_not_dict. Qed.

Lemma load_config_not_mapping_witness :
  ∃ e,
    load_config (Path "/home/u")
      {[ "/etc/ts.yml" := VList [VStr "interval"; VStr "base_location"] ]}
      ∅ (Some "/etc/ts.yml")
    = Raise e.
Proof.
  apply (load_config_not_mapping (Path "/home/u") _ ∅ (Some "/etc/ts.yml")
           (VList [VStr "interval"; VStr "base_location"]));
    [reflexivity|discriminate].
Defined.
End loading.


(** ** The separator and the sequences *)

Section separators.
Import collector.

Lemma flatten_children_ext sep1 sep2 l : ∀ items,
  Forall (λ child, ∀ items,
            flatten_item sep1 items child = flatten_item sep2 items child) l →
  flatten_children sep1 l items = flatten_children sep2 l items.
Proof.
  induction l as [|c l IH]; intros items; [done|].
  intros [Hc Hl]%Forall_cons. rewrite !flatten_children_cons, Hc. by apply IH.
Qed.

(** X17. The separator is used between the keys of dicts only: the index
    of a sequence is always joined with an underscore, so a document of
    lists and scalars flattens to the same result with every separator. *)
Theorem flatten_lists_ignore_sep obj : ∀ parent_key sep1 sep2,
  no_dict obj = true →
  flatten_dict obj parent_key sep1 = flatten_dict obj parent_key sep2.
Proof.
  induction obj as [obj IH] using value_height_ind.
  intros parent_key sep1 sep2 Hobj.
  destruct obj as [| | | | |l|d]; try done.
  rewrite !flatten_dict_VList. apply flatten_children_ext.
  apply Forall_forall. intros [K w] Hin items.
  apply list_children_elem in Hin as (j & _ & -> & Hin).
  simpl in Hobj. apply forallb_Forall in Hobj. rewrite Forall_forall in Hobj.
  destruct (is_container w) eqn:Hw.
  - rewrite !flatten_item_container by done. f_equal.
    apply IH; [by apply height_elem_list|by apply Hobj].
  - by rewrite !flatten_item_scalar.
Qed.

Lemma flatten_lists_ignore_sep_witness :
  flatten_dict (VList [VInt 1; VList [VInt 2; VInt 3]]) "ips" "."
  = flatten_dict (VList [VInt 1; VList [VInt 2; VInt 3]]) "ips" "_".
Proof.
  apply (flatten_lists_ignore_sep (VList [VInt 1; VList [VInt 2; VInt 3]])
           "ips" "." "_").
  reflexivity.
Defined.
End separators.

(** ** Files that are not there *)

Section no_document.
Import config.

Lemma resolve_path_default home :
  resolve_path home None
  = {| root := root home; parts := parts home ++ [".config"; "ts-status.yml"] |}.
Proof.
  unfold resolve_path.
  rewrite (joinpath_component _ ".config"), joinpath_component by done.
  simpl. by rewrite <- (assoc_L (++)).
Qed.

(** X18. Without an argument, or with an empty one, the file that is read
    is [.config/ts-status.yml] under the home directory. When there is no
    file at the path that is read, [load_config] raises
    [FileNotFoundError] with that path in the message; when the file is
    empty it raises [ValueError]. Nothing else of the file is looked at in
    these cases. *)
Theorem load_config_no_document home documents dirs config_path :
  resolve_path home None
  = {| root := root home; parts := parts home ++ [".config"; "ts-status.yml"] |}
  ∧ resolve_path home (Some "") = resolve_path home None
  ∧ (documents !! path_str (resolve_path home config_path) = None →
       load_config home documents dirs config_path
       = Raise (FileNotFoundError
           ("Configuration file not found at "
            ++ path_str (resolve_path home config_path) ++ ". "
            ++ "Please create it with 'interval', 'base_location', and optionally 'file_name_format'.")))
  ∧ (documents !! path_str (resolve_path home config_path) = Some VNone →
       load_config home documents dirs config_path
       = Raise (ValueError "Configuration file is empty")).
Proof.
  split; [apply resolve_path_default|]. split; [done|].
  split; intros H; unfold load_config; by rewrite H.
Qed.

Lemma load_config_no_document_witness :
  load_config (Path "/home/u") ∅ ∅ None
  = Raise (FileNotFoundError
      "Configuration file not found at /home/u/.config/ts-status.yml. Please create it with 'interval', 'base_location', and optionally 'file_name_format'.")
  ∧ load_config (Path "/home/u") {[ "/etc/ts.yml" := VNone ]} ∅ (Some "/etc/ts.yml")
    = Raise (ValueError "Configuration file is empty").
Proof.
  split.
  - apply (load_config_no_document (Path "/home/u") ∅ ∅ None). reflexivity.
  - apply (load_config_no_document (Path "/home/u")
             {[ "/etc/ts.yml" := VNone ]} ∅ (Some "/etc/ts.yml")).
    reflexivity.
Defined.
End no_document.
